(** * Service discovery and circuit breaking: a shallow embedding

    The development follows the TypeScript and JavaScript sources of the
    repository.  Definitions come first:

    - [JsMap]: the insertion-ordered [Map] of JavaScript, as far as the
      sources use it ([has], [get], [set], [delete], [values], [size]);
    - [CircuitBreaker]: [packages/circuit-breaker/index.ts]
      ([SingleMethodCircuitBreaker], [createCircuitBreakerMethod]);
    - [Server]: the registry ([packages/service-discovery/server/index.ts],
      and [service-discovery-server/index.js], which has the same
      handlers);
    - [ClientCommon], [ClientOps]: what the two discovery clients have in
      common, word for word;
    - [Client]: the TypeScript client ([packages/service-discovery/client]);
    - [ClientJs]: the JavaScript client ([service-discovery-client.js]);
    - [BreakerScenario], [ServerScenario], [ClientScenario]: the concrete
      runs the properties are tried on.

    The properties follow, module by module.

    Conventions.  Timestamps are milliseconds and intervals are seconds,
    both integers, in [Z]; where the sources multiply by [0.5] or by
    [Math.random()] the product is an exact rational.  Every call of
    [Date.now()] in the sources is a parameter of the embedded function.
    A thrown [Error] is its message.  An [async] method is embedded as the
    function from the results of what it awaits to its own completion,
    with the requests it sends or the methods it invokes as a trace, and
    calls on one object are taken one after the other. *)

From Stdlib Require Import ZArith List Ascii String Bool Lia QArith Qround.
From Stdlib Require Import DecimalString DecimalN NArith.
Import ListNotations.

Local Open Scope string_scope.
Local Open Scope list_scope.
Local Open Scope Z_scope.

(** A thrown JavaScript [Error], identified with its message. *)
Definition JsError := string.

(** What a call comes to: a value, or an exception. *)
Inductive Completion (R : Type) : Type :=
| Returned (r : R)
| Thrown (e : JsError).
Arguments Returned {R} r.
Arguments Thrown {R} e.

(** Template-literal printing of an integer number. *)
Definition numberToString (n : Z) : string :=
  NilZero.string_of_int (Z.to_int n).

(* ------------------------------------------------------------------ *)
(** ** JavaScript [Map] with string keys *)

Module JsMap.

Section Ops.
Context {V : Type}.

Fixpoint get (k : string) (m : list (string * V)) : option V :=
  match m with
  | [] => None
  | (k', v) :: rest => if String.eqb k k' then Some v else get k rest
  end.

Definition has (k : string) (m : list (string * V)) : bool :=
  match get k m with
  | Some _ => true
  | None => false
  end.

(** [set] keeps the position of a key that is present and appends a new
    key at the end, as iteration over a [Map] shows. *)
Fixpoint set (k : string) (v : V) (m : list (string * V)) : list (string * V) :=
  match m with
  | [] => [(k, v)]
  | (k', v') :: rest =>
      if String.eqb k k' then (k, v) :: rest else (k', v') :: set k v rest
  end.

Fixpoint delete (k : string) (m : list (string * V)) : list (string * V) :=
  match m with
  | [] => []
  | (k', v') :: rest =>
      if String.eqb k k' then rest else (k', v') :: delete k rest
  end.

Definition keys (m : list (string * V)) : list string := map fst m.

Definition values (m : list (string * V)) : list V := map snd m.

Definition size (m : list (string * V)) : nat := List.length m.

(** The entries stored under a key. *)
Definition entriesUnder (k : string) (m : list (string * V))
  : list (string * V) :=
  filter (fun kv => String.eqb k (fst kv)) m.

(** Keys of a [Map] are pairwise distinct. *)
Definition wf (m : list (string * V)) : Prop := NoDup (keys m).

End Ops.

Definition t (V : Type) : Type := list (string * V).

Definition empty {V : Type} : t V := [].

End JsMap.

(* ------------------------------------------------------------------ *)
(** ** The circuit breaker ([packages/circuit-breaker/index.ts]) *)

Module CircuitBreaker.

Record CircuitBreakerConfig : Type := {
  maximumFailuresAllowed : Z;
  timeWindowInMilliseconds : Z;
  resetTimeoutInMilliseconds : Z
}.

Section SingleMethod.

(** [Args] is the argument list of the protected method, [Ret] what it
    resolves to. *)
Variables Args Ret : Type.

Definition Method : Type := Args -> Completion Ret.

(** The object of class [SingleMethodCircuitBreaker]: the constructor's
    three fields and the three private state fields. *)
Record SingleMethodCircuitBreaker : Type := {
  methodName : string;
  configuration : CircuitBreakerConfig;
  fallbackMethodToCall : Method;
  isCircuitCurrentlyOpen : bool;
  failureTimestampsWithinWindow : list Z;
  nextAllowedAttemptTime : Z
}.

Definition newSingleMethodCircuitBreaker (name : string)
  (config : CircuitBreakerConfig) (fallback : Method)
  : SingleMethodCircuitBreaker :=
  {| methodName := name;
     configuration := config;
     fallbackMethodToCall := fallback;
     isCircuitCurrentlyOpen := false;
     failureTimestampsWithinWindow := [];
     nextAllowedAttemptTime := 0 |}.

Definition withOpen (o : bool) (b : SingleMethodCircuitBreaker) :=
  {| methodName := methodName b;
     configuration := configuration b;
     fallbackMethodToCall := fallbackMethodToCall b;
     isCircuitCurrentlyOpen := o;
     failureTimestampsWithinWindow := failureTimestampsWithinWindow b;
     nextAllowedAttemptTime := nextAllowedAttemptTime b |}.

Definition withFailures (l : list Z) (b : SingleMethodCircuitBreaker) :=
  {| methodName := methodName b;
     configuration := configuration b;
     fallbackMethodToCall := fallbackMethodToCall b;
     isCircuitCurrentlyOpen := isCircuitCurrentlyOpen b;
     failureTimestampsWithinWindow := l;
     nextAllowedAttemptTime := nextAllowedAttemptTime b |}.

Definition withNextAttempt (t : Z) (b : SingleMethodCircuitBreaker) :=
  {| methodName := methodName b;
     configuration := configuration b;
     fallbackMethodToCall := fallbackMethodToCall b;
     isCircuitCurrentlyOpen := isCircuitCurrentlyOpen b;
     failureTimestampsWithinWindow := failureTimestampsWithinWindow b;
     nextAllowedAttemptTime := t |}.

Definition shouldOpenCircuit (b : SingleMethodCircuitBreaker) : bool :=
  negb (isCircuitCurrentlyOpen b)
  && (Z.of_nat (List.length (failureTimestampsWithinWindow b))
      >=? maximumFailuresAllowed (configuration b)).

Definition shouldAttemptRecovery (currentTimestamp : Z)
  (b : SingleMethodCircuitBreaker) : bool :=
  isCircuitCurrentlyOpen b && (currentTimestamp >=? nextAllowedAttemptTime b).

Definition openCircuitAndSetResetTime (currentTimestamp : Z)
  (b : SingleMethodCircuitBreaker) : SingleMethodCircuitBreaker :=
  withNextAttempt
    (currentTimestamp + resetTimeoutInMilliseconds (configuration b))
    (withOpen true b).

Definition setCircuitToHalfOpen (b : SingleMethodCircuitBreaker) :=
  withOpen false b.

Definition closeCircuit (b : SingleMethodCircuitBreaker) :=
  withFailures [] b.

Definition removeOldFailureRecords (currentTimestamp : Z)
  (b : SingleMethodCircuitBreaker) : SingleMethodCircuitBreaker :=
  let timeWindowCutoff :=
    currentTimestamp - timeWindowInMilliseconds (configuration b) in
  withFailures
    (filter (fun timestamp => timestamp >? timeWindowCutoff)
       (failureTimestampsWithinWindow b))
    b.

Definition handleSuccessfulExecution (b : SingleMethodCircuitBreaker) :=
  closeCircuit b.

Definition handleFailedExecution (currentTimestamp : Z)
  (b : SingleMethodCircuitBreaker) : SingleMethodCircuitBreaker :=
  withFailures (failureTimestampsWithinWindow b ++ [currentTimestamp]) b.

(** The trace of a call: which of the two methods were invoked, on which
    arguments, in order. *)
Inductive Invocation : Type :=
| InvokedOriginal (a : Args)
| InvokedFallback (a : Args).

Record Execution : Type := {
  breakerAfter : SingleMethodCircuitBreaker;
  completion : Completion Ret;
  invocations : list Invocation
}.

(** The three state updates made before the circuit is consulted. *)
Definition beforeCall (currentTimestamp : Z) (b : SingleMethodCircuitBreaker)
  : SingleMethodCircuitBreaker :=
  let b1 := removeOldFailureRecords currentTimestamp b in
  let b2 := if shouldOpenCircuit b1
            then openCircuitAndSetResetTime currentTimestamp b1 else b1 in
  if shouldAttemptRecovery currentTimestamp b2
  then setCircuitToHalfOpen b2 else b2.

Definition executeWithCircuitBreaker (b : SingleMethodCircuitBreaker)
  (originalMethodToExecute : Method) (methodArguments : Args)
  (currentTimestamp : Z) : Execution :=
  let b' := beforeCall currentTimestamp b in
  if isCircuitCurrentlyOpen b' then
    {| breakerAfter := b';
       completion := fallbackMethodToCall b' methodArguments;
       invocations := [InvokedFallback methodArguments] |}
  else
    match originalMethodToExecute methodArguments with
    | Returned executionResult =>
        {| breakerAfter := handleSuccessfulExecution b';
           completion := Returned executionResult;
           invocations := [InvokedOriginal methodArguments] |}
    | Thrown executionError =>
        {| breakerAfter := handleFailedExecution currentTimestamp b';
           completion := fallbackMethodToCall b' methodArguments;
           invocations := [InvokedOriginal methodArguments;
                           InvokedFallback methodArguments] |}
    end.

Record Status : Type := {
  statusMethodName : string;
  isCircuitOpen : bool;
  currentFailureCount : nat;
  statusMaximumFailuresAllowed : Z;
  statusTimeWindowInMilliseconds : Z
}.

Definition getCurrentStatus (b : SingleMethodCircuitBreaker) : Status :=
  {| statusMethodName := methodName b;
     isCircuitOpen := isCircuitCurrentlyOpen b;
     currentFailureCount := List.length (failureTimestampsWithinWindow b);
     statusMaximumFailuresAllowed := maximumFailuresAllowed (configuration b);
     statusTimeWindowInMilliseconds :=
       timeWindowInMilliseconds (configuration b) |}.

(** *** [createCircuitBreakerMethod] *)

Definition defaultConfiguration : CircuitBreakerConfig :=
  {| maximumFailuresAllowed := 3;
     timeWindowInMilliseconds := 10000;
     resetTimeoutInMilliseconds := 5000 |}.

Definition defaultFallback : Method :=
  fun _ => Thrown "Service unavailable and no fallback method configured".

(** [originalMethodName] is [originalMethod.name]; the breaker object the
    factory closes over is returned, and the wrapped function is
    [wrappedCall] on it. *)
Definition createCircuitBreakerMethod (originalMethodName : string)
  (configuration : option CircuitBreakerConfig)
  (fallbackMethod : option Method) : SingleMethodCircuitBreaker :=
  let finalConfiguration :=
    match configuration with Some c => c | None => defaultConfiguration end in
  let finalFallback :=
    match fallbackMethod with Some f => f | None => defaultFallback end in
  newSingleMethodCircuitBreaker
    (if String.eqb originalMethodName "" then "anonymous-method"
     else originalMethodName)
    finalConfiguration finalFallback.

Definition wrappedCall (circuitBreaker : SingleMethodCircuitBreaker)
  (originalMethod : Method) (methodArguments : Args) (now : Z) : Execution :=
  executeWithCircuitBreaker circuitBreaker originalMethod methodArguments now.

(** A run of calls on one breaker, one after the other. *)
Record Call : Type := {
  callMethod : Method;
  callArguments : Args;
  callTime : Z
}.

Definition step (b : SingleMethodCircuitBreaker) (c : Call) : Execution :=
  executeWithCircuitBreaker b (callMethod c) (callArguments c) (callTime c).

Fixpoint runCalls (b : SingleMethodCircuitBreaker) (cs : list Call)
  : SingleMethodCircuitBreaker * list Execution :=
  match cs with
  | [] => (b, [])
  | c :: rest =>
      let e := step b c in
      let '(b', es) := runCalls (breakerAfter e) rest in
      (b', e :: es)
  end.

(** The call reached the protected method. *)
Definition attempted (e : Execution) (a : Args) : Prop :=
  In (InvokedOriginal a) (invocations e).

(** The protected method throws on the arguments of the call. *)
Definition failing (c : Call) : Prop :=
  exists err, callMethod c (callArguments c) = Thrown err.

End SingleMethod.

Arguments methodName {Args Ret} _.
Arguments configuration {Args Ret} _.
Arguments fallbackMethodToCall {Args Ret} _ _.
Arguments isCircuitCurrentlyOpen {Args Ret} _.
Arguments failureTimestampsWithinWindow {Args Ret} _.
Arguments nextAllowedAttemptTime {Args Ret} _.
Arguments InvokedOriginal {Args} a.
Arguments InvokedFallback {Args} a.
Arguments breakerAfter {Args Ret} _.
Arguments completion {Args Ret} _.
Arguments invocations {Args Ret} _.
Arguments callMethod {Args Ret} _ _.
Arguments callArguments {Args Ret} _.
Arguments callTime {Args Ret} _.
Arguments newSingleMethodCircuitBreaker {Args Ret} name config fallback.
Arguments withOpen {Args Ret} o b.
Arguments withFailures {Args Ret} l b.
Arguments withNextAttempt {Args Ret} t b.
Arguments shouldOpenCircuit {Args Ret} b.
Arguments shouldAttemptRecovery {Args Ret} currentTimestamp b.
Arguments openCircuitAndSetResetTime {Args Ret} currentTimestamp b.
Arguments setCircuitToHalfOpen {Args Ret} b.
Arguments closeCircuit {Args Ret} b.
Arguments removeOldFailureRecords {Args Ret} currentTimestamp b.
Arguments handleSuccessfulExecution {Args Ret} b.
Arguments handleFailedExecution {Args Ret} currentTimestamp b.
Arguments beforeCall {Args Ret} currentTimestamp b.
Arguments executeWithCircuitBreaker {Args Ret} b originalMethodToExecute
  methodArguments currentTimestamp.
Arguments getCurrentStatus {Args Ret} b.
Arguments defaultFallback {Args Ret} _.
Arguments createCircuitBreakerMethod {Args Ret} originalMethodName
  configuration fallbackMethod.
Arguments wrappedCall {Args Ret} circuitBreaker originalMethod
  methodArguments now.
Arguments step {Args Ret} b c.
Arguments runCalls {Args Ret} b cs.
Arguments attempted {Args Ret} e a.
Arguments failing {Args Ret} c.

End CircuitBreaker.

(** The scenario of the specification: a breaker with [maxFailures = 3],
    [windowMs = 10000], [resetTimeoutMs = 5000] around a method of one
    numeric argument. *)
Module BreakerScenario.

Import CircuitBreaker.

Definition scenarioConfiguration : CircuitBreakerConfig :=
  {| maximumFailuresAllowed := 3;
     timeWindowInMilliseconds := 10000;
     resetTimeoutInMilliseconds := 5000 |}.

Definition refusing : Method (list Z) string :=
  fun _ => Thrown "connect ECONNREFUSED".

Definition answering : Method (list Z) string :=
  fun _ => Returned "fresh".

Definition cachedAnswer : Method (list Z) string :=
  fun _ => Returned "fallback".

Definition failingCallAt (t : Z) : Call (list Z) string :=
  {| callMethod := refusing; callArguments := [7]; callTime := t |}.

Definition succeedingCallAt (t : Z) : Call (list Z) string :=
  {| callMethod := answering; callArguments := [7]; callTime := t |}.

Definition breaker0 : SingleMethodCircuitBreaker (list Z) string :=
  newSingleMethodCircuitBreaker "getUser" scenarioConfiguration cachedAnswer.

(** Three failures at 0 s, 1 s and 2 s. *)
Definition afterThreeFailures : SingleMethodCircuitBreaker (list Z) string :=
  fst (runCalls breaker0
         [failingCallAt 0; failingCallAt 1000; failingCallAt 2000]).

(** Then a fourth call at 2.5 s, which opens the circuit until 7.5 s, and
    the trial call at 7.5 s, which fails. *)
Definition afterFailedTrial : SingleMethodCircuitBreaker (list Z) string :=
  fst (runCalls afterThreeFailures [failingCallAt 2500; failingCallAt 7500]).

(** The circuit as the fourth call leaves it. *)
Definition opened : SingleMethodCircuitBreaker (list Z) string :=
  fst (runCalls afterThreeFailures [failingCallAt 2500]).

End BreakerScenario.

(* ------------------------------------------------------------------ *)
(** ** The registry ([service-discovery/server/index.ts])

    [service-discovery-server/index.js] has the same handlers; it stores
    [parseInt(port)], which is [port] for the integer ports of this
    embedding, and its discover handler copies the seven fields of every
    instance it returns. *)

Module ServiceRequest.

(** The JSON body of [POST /register] and [POST /heartbeat]; a field may
    be absent. *)
Record t : Type := {
  name : option string;
  port : option Z;
  heartbeatInterval : option Z
}.

End ServiceRequest.

Module Req.

(** What the handlers read of an Express request. *)
Record t : Type := {
  ip : option string;
  remoteAddress : option string;
  body : ServiceRequest.t
}.

End Req.

Module Server.

Record ServiceInstance : Type := {
  id : string;
  name : string;
  ip : string;
  port : Z;
  heartbeatInterval : Z;
  registeredAt : Z;
  lastHeartbeat : Z
}.

Definition ServiceGroup : Type := JsMap.t ServiceInstance.

Definition ServicesMap : Type := JsMap.t ServiceGroup.

Record RegisterResponse : Type := {
  rr_id : string;
  rr_heartbeatInterval : Z;
  rr_registeredAt : Z
}.

Record HeartbeatResponse : Type := {
  ok : bool;
  hr_lastHeartbeat : Z;
  nextHeartbeatIn : Z
}.

Record ServicesResponse : Type := {
  services : list ServiceInstance
}.

(** [res.json(body)], or [res.status(code).json({ error })]. *)
Inductive Reply (B : Type) : Type :=
| Json (body : B)
| Status (code : Z) (error : string).
Arguments Json {B} body.
Arguments Status {B} code error.

(** [a || b] on strings that may be [undefined]: the empty string is
    falsy. *)
Definition orElse (a : option string) (b : string) : string :=
  match a with
  | Some s => if String.eqb s "" then b else s
  | None => b
  end.

Definition getClientIP (req : Req.t) : string :=
  orElse (Req.ip req) (orElse (Req.remoteAddress req) "127.0.0.1").

Definition createServiceId (name ip : string) (port : Z) : string :=
  String.append name
    (String.append "-" (String.append ip
       (String.append "-" (numberToString port)))).

Definition isServiceAlive (now : Z) (service : ServiceInstance) : bool :=
  let timeSinceLastHeartbeat := inject_Z (now - lastHeartbeat service) in
  let graceTime := (inject_Z (heartbeatInterval service) * 1000 * 0.5)%Q in
  let maxAllowedTime :=
    (inject_Z (heartbeatInterval service) * 1000 + graceTime)%Q in
  Qle_bool timeSinceLastHeartbeat maxAllowedTime.

(** [!name || !port] fails: both are present and truthy. *)
Definition requiredFields (b : ServiceRequest.t) : option (string * Z) :=
  match ServiceRequest.name b, ServiceRequest.port b with
  | Some name, Some port =>
      if String.eqb name "" || (port =? 0) then None else Some (name, port)
  | _, _ => None
  end.

Definition heartbeatIntervalOr30 (b : ServiceRequest.t) : Z :=
  match ServiceRequest.heartbeatInterval b with
  | Some h => h
  | None => 30
  end.

(** The group of [name], after [if (!services.has(name)) services.set(name,
    new Map())]. *)
Definition getOrCreateGroup (name : string) (services : ServicesMap)
  : ServiceGroup :=
  match JsMap.get name services with
  | Some serviceGroup => serviceGroup
  | None => JsMap.empty
  end.

(** [app.post('/register')].  The group is an object held by [services]:
    what the handler does to it is written back under [name]. *)
Definition register (now : Z) (req : Req.t) (services : ServicesMap)
  : ServicesMap * Reply RegisterResponse :=
  let heartbeatInterval := heartbeatIntervalOr30 (Req.body req) in
  match requiredFields (Req.body req) with
  | None => (services, Status 400 "Name and port are required")
  | Some (name, port) =>
      let ip := getClientIP req in
      let id := createServiceId name ip port in
      let serviceGroup := getOrCreateGroup name services in
      let serviceGroup' :=
        JsMap.set id
          {| id := id; name := name; ip := ip; port := port;
             heartbeatInterval := heartbeatInterval;
             registeredAt := now; lastHeartbeat := now |}
          serviceGroup in
      (JsMap.set name serviceGroup' services,
       Json {| rr_id := id; rr_heartbeatInterval := heartbeatInterval;
               rr_registeredAt := now |})
  end.

Definition withLastHeartbeat (now : Z) (service : ServiceInstance)
  : ServiceInstance :=
  {| id := id service; name := name service; ip := ip service;
     port := port service; heartbeatInterval := heartbeatInterval service;
     registeredAt := registeredAt service; lastHeartbeat := now |}.

(** [app.post('/heartbeat')]. *)
Definition heartbeat (now : Z) (req : Req.t) (services : ServicesMap)
  : ServicesMap * Reply HeartbeatResponse :=
  let heartbeatInterval := heartbeatIntervalOr30 (Req.body req) in
  match requiredFields (Req.body req) with
  | None => (services, Status 400 "Name and port are required")
  | Some (name, port) =>
      let ip := getClientIP req in
      let id := createServiceId name ip port in
      let serviceGroup := getOrCreateGroup name services in
      let service :=
        match JsMap.get id serviceGroup with
        | Some service => service
        | None =>
            {| id := id; name := name; ip := ip; port := port;
               heartbeatInterval := heartbeatInterval;
               registeredAt := now; lastHeartbeat := now |}
        end in
      let service' := withLastHeartbeat now service in
      (JsMap.set name (JsMap.set id service' serviceGroup) services,
       Json {| ok := true; hr_lastHeartbeat := now;
               nextHeartbeatIn := Server.heartbeatInterval service' |})
  end.

(** [app.get('/services/:name')]; [isServiceAlive] reads the clock once
    for each instance, and the readings of one pass are taken equal. *)
Definition discover (now : Z) (name : string) (services : ServicesMap)
  : Reply ServicesResponse :=
  if negb (JsMap.has name services) then Json {| services := [] |}
  else
    let serviceGroup := getOrCreateGroup name services in
    let aliveServices :=
      filter (fun service => isServiceAlive now service)
        (JsMap.values serviceGroup) in
    Json {| services := aliveServices |}.

(** The instances a reply of [discover] carries. *)
Definition discovered (r : Reply ServicesResponse) : list ServiceInstance :=
  match r with
  | Json b => services b
  | Status _ _ => []
  end.

(** The store and its groups are [Map]s: no key occurs twice. *)
Definition storeWf (services : ServicesMap) : Prop :=
  JsMap.wf services /\
  forall name group, JsMap.get name services = Some group -> JsMap.wf group.

(** The body of a reply, when it is not an error. *)
Definition replied {B : Type} (r : Reply B) : option B :=
  match r with
  | Json b => Some b
  | Status _ _ => None
  end.

(** The liveness predicate in the words of the specification:
    [now - lastHeartbeat <= heartbeatInterval * 1000 * 1.5]. *)
Definition livenessPredicate (now : Z) (service : ServiceInstance) : bool :=
  Qle_bool (inject_Z (now - lastHeartbeat service))
    (inject_Z (heartbeatInterval service) * 1000 * 1.5)%Q.

End Server.

(** A service that registers with a heartbeat interval of one second,
    and registers again two seconds later. *)
Module ServerScenario.

Import Server.

Definition request (interval : Z) : Req.t :=
  {| Req.ip := Some "10.0.0.1";
     Req.remoteAddress := None;
     Req.body :=
       {| ServiceRequest.name := Some "svc-a";
          ServiceRequest.port := Some 9000;
          ServiceRequest.heartbeatInterval := Some interval |} |}.

Definition registeredOnce : ServicesMap :=
  fst (register 0 (request 1) JsMap.empty).

Definition registeredTwice : ServicesMap :=
  fst (register 2000 (request 1) registeredOnce).

(** The same request under another name, and the store after a service
    named ["__proto__"] has registered as well. *)
Definition requestOf (name : string) (interval : Z) : Req.t :=
  {| Req.ip := Some "10.0.0.1";
     Req.remoteAddress := None;
     Req.body :=
       {| ServiceRequest.name := Some name;
          ServiceRequest.port := Some 9000;
          ServiceRequest.heartbeatInterval := Some interval |} |}.

Definition registeredUnderProto : ServicesMap :=
  fst (register 0 (requestOf "__proto__" 1) registeredOnce).

(** The instance and its group after the first registration. *)
Definition firstRegistration : ServiceInstance :=
  {| id := "svc-a-10.0.0.1-9000"; name := "svc-a"; ip := "10.0.0.1";
     port := 9000; heartbeatInterval := 1;
     registeredAt := 0; lastHeartbeat := 0 |}.

Definition firstGroup : ServiceGroup :=
  [("svc-a-10.0.0.1-9000", firstRegistration)].

End ServerScenario.

(* ------------------------------------------------------------------ *)
(** ** What the two discovery clients share *)

Module ClientCommon.

Record ServiceDiscoveryClientOptions : Type := {
  defaultHeartbeatInterval : Z;
  cacheMultiplier : Z;
  requestTimeout : Z
}.

(** The defaults the constructor merges the caller's options into. *)
Definition defaultOptions : ServiceDiscoveryClientOptions :=
  {| defaultHeartbeatInterval := 30;
     cacheMultiplier := 2;
     requestTimeout := 5000 |}.

Record CurrentService : Type := {
  id : string;
  name : string;
  port : Z;
  heartbeatInterval : Z
}.

(** An instance as [GET /services/:name] returns it. *)
Definition ServiceResponse : Type := Server.ServiceInstance.

Record ServiceCacheEntry : Type := {
  services : list ServiceResponse;
  cachedAt : Z;
  expiresAt : Z
}.

Definition ServiceCache : Type := JsMap.t ServiceCacheEntry.

(** The handle of [setInterval(callback, delay)]; [clearInterval] stops
    it. *)
Record Timer : Type := {
  delay : Z;
  running : bool
}.

Definition clearInterval (t : Timer) : Timer :=
  {| delay := delay t; running := false |}.

(** The state fields of a client object. *)
Record State : Type := {
  currentService : option CurrentService;
  heartbeatTimer : option Timer;
  isRegistered : bool;
  serviceCache : ServiceCache
}.

Definition initialState : State :=
  {| currentService := None;
     heartbeatTimer := None;
     isRegistered := false;
     serviceCache := JsMap.empty |}.

(** The requests a client sends to the discovery server. *)
Inductive HttpRequest : Type :=
| POST_register (payload : ServiceRequest.t)
| POST_heartbeat (payload : ServiceRequest.t)
| GET_services (serviceName : string)
| DELETE_services (serviceName : string) (port : Z).

(** A value of [Math.random()]: a number in [0, 1). *)
Record UnitInterval : Type := {
  value : Q;
  in_range : Qle_bool 0 value && negb (Qle_bool 1 value) = true
}.

(** What the world gives to one call of [getServiceUrl]: the clock read
    by [_isCacheValid], what [GET /services/:name] comes to if it is
    sent ([data.services] may be absent), the two clock readings of
    [_updateCache], in the order of the object literal, and the value of
    [Math.random()].  One value serves the call: a second one is drawn
    only after a selection has thrown, and no selection among at least
    one instance throws. *)
Record World : Type := {
  nowAtValidityCheck : Z;
  fetched : Completion (option (list ServiceResponse));
  nowAtCachedAt : Z;
  nowAtExpiresAt : Z;
  random : UnitInterval
}.

Record Resolution : Type := {
  cacheAfter : ServiceCache;
  result : Completion string;
  requests : list HttpRequest
}.

Fixpoint includes (c : Ascii.ascii) (s : string) : bool :=
  match s with
  | EmptyString => false
  | String c' rest => Ascii.eqb c c' || includes c rest
  end.

Definition _formatUrl (ip : string) (port : Z) : string :=
  if includes ":"%char ip
  then String.append "http://["
         (String.append ip (String.append "]:" (numberToString port)))
  else String.append "http://"
         (String.append ip (String.append ":" (numberToString port))).

(** [Math.min(...xs)]; of no argument it is [Infinity], here [None]. *)
Definition Math_min (xs : list Z) : option Z :=
  match xs with
  | [] => None
  | x :: rest => Some (fold_left Z.min rest x)
  end.

Definition _selectRandomService (r : UnitInterval)
  (services : list ServiceResponse) : Completion string :=
  match services with
  | [] => Thrown "No instances available"
  | _ :: _ =>
      let randomIndex :=
        Qfloor (value r * inject_Z (Z.of_nat (List.length services))) in
      match nth_error services (Z.to_nat randomIndex) with
      | Some selectedService =>
          Returned (_formatUrl (Server.ip selectedService)
                      (Server.port selectedService))
      | None => Thrown "Cannot read properties of undefined"
      end
  end.

Definition _getCachedServices (serviceName : string) (cache : ServiceCache)
  : option (list ServiceResponse) :=
  match JsMap.get serviceName cache with
  | Some cacheEntry => Some (services cacheEntry)
  | None => None
  end.

Definition _isCacheValid (now : Z) (serviceName : string)
  (cache : ServiceCache) : bool :=
  match JsMap.get serviceName cache with
  | None => false
  | Some cacheEntry => now <? expiresAt cacheEntry
  end.

Definition _updateCache (options : ServiceDiscoveryClientOptions)
  (nowCachedAt nowExpiresAt : Z) (serviceName : string)
  (services : list ServiceResponse) (cache : ServiceCache) : ServiceCache :=
  match Math_min (map Server.heartbeatInterval services) with
  | None => cache
  | Some minHeartbeatInterval =>
      let cacheDuration :=
        minHeartbeatInterval * 1000 * cacheMultiplier options in
      JsMap.set serviceName
        {| services := services;
           cachedAt := nowCachedAt;
           expiresAt := nowExpiresAt + cacheDuration |}
        cache
  end.

(** [cachedServices && cachedServices.length > 0]. *)
Definition nonEmpty (l : option (list ServiceResponse)) : bool :=
  match l with
  | Some (_ :: _) => true
  | _ => false
  end.

Definition orEmpty (l : option (list ServiceResponse))
  : list ServiceResponse :=
  match l with
  | Some services => services
  | None => []
  end.

Definition noInstances (serviceName : string) : JsError :=
  String.append "No instances available for service: " serviceName.

(** [m] is the least element of [l]. *)
Definition minimumOf (m : Z) (l : list Z) : Prop :=
  In m l /\ forall x, In x l -> m <= x.

(** The expiry of a cache entry in the words of the specification:
    [expiresAt = cachedAt + min(heartbeatInterval over the services)
    * cacheMultiplier * 1000]. *)
Definition wellTimed (options : ServiceDiscoveryClientOptions)
  (entry : ServiceCacheEntry) : Prop :=
  exists m,
    minimumOf m (map Server.heartbeatInterval (services entry)) /\
    expiresAt entry = cachedAt entry + m * cacheMultiplier options * 1000.

Definition allWellTimed (options : ServiceDiscoveryClientOptions)
  (cache : ServiceCache) : Prop :=
  forall serviceName entry,
    JsMap.get serviceName cache = Some entry -> wellTimed options entry.

(** The URL of one of the instances. *)
Definition urlOfOneOf (services : list ServiceResponse) (url : string)
  : Prop :=
  exists service,
    In service services /\
    url = _formatUrl (Server.ip service) (Server.port service).

End ClientCommon.

Module ClientOps.

Import ClientCommon.

Definition withTimer (t : option Timer) (st : State) : State :=
  {| currentService := currentService st;
     heartbeatTimer := t;
     isRegistered := isRegistered st;
     serviceCache := serviceCache st |}.

Definition registered (cs : CurrentService) (st : State) : State :=
  {| currentService := Some cs;
     heartbeatTimer := heartbeatTimer st;
     isRegistered := true;
     serviceCache := serviceCache st |}.

(** [if (this.heartbeatTimer) clearInterval(this.heartbeatTimer)]: the
    field keeps the stopped handle. *)
Definition clearExistingTimer (st : State) : State :=
  withTimer
    (match heartbeatTimer st with
     | Some t => Some (clearInterval t)
     | None => None
     end) st.

Definition registerPayload (options : ServiceDiscoveryClientOptions)
  (serviceName : string) (servicePort : Z) : ServiceRequest.t :=
  {| ServiceRequest.name := Some serviceName;
     ServiceRequest.port := Some servicePort;
     ServiceRequest.heartbeatInterval :=
       Some (defaultHeartbeatInterval options) |}.

(** [response.data.services || []], or the error of the request. *)
Definition _fetchServices
  (response : Completion (option (list ServiceResponse)))
  : Completion (list ServiceResponse) :=
  match response with
  | Returned data => Returned (orEmpty data)
  | Thrown error => Thrown error
  end.

(** The last two statements of [getServiceUrl], on the [cachedServices]
    read when the call began. *)
Definition staleCacheOrThrow (w : World) (serviceName : string)
  (cachedServices : option (list ServiceResponse)) (cache : ServiceCache)
  (sent : list HttpRequest) : Resolution :=
  if nonEmpty cachedServices then
    {| cacheAfter := cache;
       result := _selectRandomService (random w) (orEmpty cachedServices);
       requests := sent |}
  else
    {| cacheAfter := cache;
       result := Thrown (noInstances serviceName);
       requests := sent |}.

End ClientOps.

(* ------------------------------------------------------------------ *)
(** ** The TypeScript client ([service-discovery/client/index.ts]) *)

Module Client.

Import ClientCommon ClientOps.

Definition _sendHeartbeat (st : State) : list HttpRequest :=
  match currentService st with
  | None => []
  | Some cs =>
      [POST_heartbeat
         {| ServiceRequest.name := Some (name cs);
            ServiceRequest.port := Some (port cs);
            ServiceRequest.heartbeatInterval := Some (heartbeatInterval cs) |}]
  end.

Definition _startHeartbeat (st : State) : State * list HttpRequest :=
  let st1 := clearExistingTimer st in
  match currentService st1 with
  | None => (st1, [])
  | Some cs =>
      let interval := heartbeatInterval cs * 1000 in
      let st2 := withTimer (Some {| delay := interval; running := true |}) st1 in
      (st2, _sendHeartbeat st2)
  end.

(** [register]; [response] is what [POST /register] comes to. *)
Definition register (options : ServiceDiscoveryClientOptions)
  (serviceName : string) (servicePort : Z)
  (response : Completion Server.RegisterResponse) (st : State)
  : State * Completion Server.RegisterResponse * list HttpRequest :=
  let payload := registerPayload options serviceName servicePort in
  match response with
  | Thrown error => (st, Thrown error, [POST_register payload])
  | Returned data =>
      let st1 :=
        registered
          {| id := Server.rr_id data;
             name := serviceName;
             port := servicePort;
             heartbeatInterval := Server.rr_heartbeatInterval data |} st in
      let '(st2, sent) := _startHeartbeat st1 in
      (st2, Returned data, POST_register payload :: sent)
  end.

(** One firing of the interval timer: its callback is [_sendHeartbeat]. *)
Definition timerFires (st : State) : list HttpRequest :=
  match heartbeatTimer st with
  | Some t => if running t then _sendHeartbeat st else []
  | None => []
  end.

Definition getServiceUrl (options : ServiceDiscoveryClientOptions)
  (w : World) (serviceName : string) (cache : ServiceCache) : Resolution :=
  let cachedServices := _getCachedServices serviceName cache in
  if nonEmpty cachedServices
     && _isCacheValid (nowAtValidityCheck w) serviceName cache
  then
    {| cacheAfter := cache;
       result := _selectRandomService (random w) (orEmpty cachedServices);
       requests := [] |}
  else
    let sent := [GET_services serviceName] in
    match _fetchServices (fetched w) with
    | Returned (s :: rest) =>
        let freshServices := s :: rest in
        let cache' :=
          _updateCache options (nowAtCachedAt w) (nowAtExpiresAt w)
            serviceName freshServices cache in
        match _selectRandomService (random w) freshServices with
        | Returned url =>
            {| cacheAfter := cache'; result := Returned url;
               requests := sent |}
        | Thrown _ =>
            staleCacheOrThrow w serviceName cachedServices cache' sent
        end
    | Returned [] => staleCacheOrThrow w serviceName cachedServices cache sent
    | Thrown _ => staleCacheOrThrow w serviceName cachedServices cache sent
    end.

End Client.

(* ------------------------------------------------------------------ *)
(** ** The JavaScript client ([service-discovery-client.js]) *)

Module ClientJs.

Import ClientCommon ClientOps.

Definition _sendHeartbeat (options : ServiceDiscoveryClientOptions)
  (st : State) : list HttpRequest :=
  match currentService st with
  | None => []
  | Some cs =>
      [POST_heartbeat
         {| ServiceRequest.name := Some (name cs);
            ServiceRequest.port := Some (port cs);
            ServiceRequest.heartbeatInterval :=
              Some (defaultHeartbeatInterval options) |}]
  end.

(** Reading [this.currentService.heartbeatInterval] of [null] throws. *)
Definition _startHeartbeat (options : ServiceDiscoveryClientOptions)
  (st : State) : Completion (State * list HttpRequest) :=
  let st1 := clearExistingTimer st in
  match currentService st1 with
  | None => Thrown "Cannot read properties of null"
  | Some cs =>
      let interval := heartbeatInterval cs * 1000 in
      let st2 := withTimer (Some {| delay := interval; running := true |}) st1 in
      Returned (st2, _sendHeartbeat options st2)
  end.

Definition register (options : ServiceDiscoveryClientOptions)
  (serviceName : string) (servicePort : Z)
  (response : Completion Server.RegisterResponse) (st : State)
  : State * Completion Server.RegisterResponse * list HttpRequest :=
  let payload := registerPayload options serviceName servicePort in
  match response with
  | Thrown error => (st, Thrown error, [POST_register payload])
  | Returned data =>
      let st1 :=
        registered
          {| name := serviceName;
             port := servicePort;
             heartbeatInterval := Server.rr_heartbeatInterval data;
             id := Server.rr_id data |} st in
      match _startHeartbeat options st1 with
      | Returned (st2, sent) =>
          (st2, Returned data, POST_register payload :: sent)
      | Thrown error =>
          (clearExistingTimer st1, Thrown error, [POST_register payload])
      end
  end.

Definition timerFires (options : ServiceDiscoveryClientOptions)
  (st : State) : list HttpRequest :=
  match heartbeatTimer st with
  | Some t => if running t then _sendHeartbeat options st else []
  | None => []
  end.

(** No [try] around the fetch here: its error is the call's error. *)
Definition getServiceUrl (options : ServiceDiscoveryClientOptions)
  (w : World) (serviceName : string) (cache : ServiceCache) : Resolution :=
  let cachedServices := _getCachedServices serviceName cache in
  if nonEmpty cachedServices
     && _isCacheValid (nowAtValidityCheck w) serviceName cache
  then
    {| cacheAfter := cache;
       result := _selectRandomService (random w) (orEmpty cachedServices);
       requests := [] |}
  else
    let sent := [GET_services serviceName] in
    match _fetchServices (fetched w) with
    | Thrown error =>
        {| cacheAfter := cache; result := Thrown error; requests := sent |}
    | Returned (s :: rest) =>
        let freshServices := s :: rest in
        {| cacheAfter :=
             _updateCache options (nowAtCachedAt w) (nowAtExpiresAt w)
               serviceName freshServices cache;
           result := _selectRandomService (random w) freshServices;
           requests := sent |}
    | Returned [] => staleCacheOrThrow w serviceName cachedServices cache sent
    end.

End ClientJs.

(** A client that resolved ["order-service"] at 0 s to one instance with
    an interval of 30 s, and asks again at 61 s, when the registry cannot
    be reached; and a registry that confirms an interval of 10 s to a
    client that asked for the default. *)
Module ClientScenario.

Import ClientCommon.

Definition orderService : ServiceResponse :=
  {| Server.id := "order-service-10.0.0.2-5000";
     Server.name := "order-service"; Server.ip := "10.0.0.2";
     Server.port := 5000; Server.heartbeatInterval := 30;
     Server.registeredAt := 0; Server.lastHeartbeat := 0 |}.

Definition zeroDraw : UnitInterval :=
  {| value := 0; in_range := eq_refl |}.

Definition firstLookup : World :=
  {| nowAtValidityCheck := 0;
     fetched := Returned (Some [orderService]);
     nowAtCachedAt := 0;
     nowAtExpiresAt := 0;
     random := zeroDraw |}.

(** The same lookup at 1 s, with a clock that moves by three
    milliseconds between the two readings of [_updateCache]. *)
Definition tickingLookup : World :=
  {| nowAtValidityCheck := 1000;
     fetched := Returned (Some [orderService]);
     nowAtCachedAt := 1000;
     nowAtExpiresAt := 1003;
     random := zeroDraw |}.

Definition expiredCache : ServiceCache :=
  [("order-service",
    {| services := [orderService]; cachedAt := 0; expiresAt := 60000 |})].

Definition registryDown : World :=
  {| nowAtValidityCheck := 61000;
     fetched := Thrown "connect ECONNREFUSED";
     nowAtCachedAt := 61000;
     nowAtExpiresAt := 61000;
     random := zeroDraw |}.

Definition earlyLookup : World :=
  {| nowAtValidityCheck := 59999;
     fetched := Thrown "connect ECONNREFUSED";
     nowAtCachedAt := 59999;
     nowAtExpiresAt := 59999;
     random := zeroDraw |}.

Definition confirmation : Server.RegisterResponse :=
  {| Server.rr_id := "user-service-10.0.0.3-4000";
     Server.rr_heartbeatInterval := 10;
     Server.rr_registeredAt := 0 |}.

End ClientScenario.

(* ------------------------------------------------------------------ *)
(** ** A plain JavaScript object with string keys

    The object that [{}] makes, as far as [object[key] = value] with a
    value that is an array, and the enumeration of own properties by
    [JSON.stringify], show it.  A key that is an array index, the
    canonical decimal numeral of an integer below [2^32 - 1], names an
    element; own properties are enumerated with the elements first, by
    ascending index, then the other keys in the order of their
    creation.  An assignment under ["__proto__"] reaches the setter that
    [Object.prototype] holds for this key: the prototype of the object
    becomes the value, and no own property is made. *)

Module JsObject.

Record t (V : Type) : Type := {
  elements : list (N * V);
  properties : JsMap.t V
}.
Arguments elements {V} _.
Arguments properties {V} _.

Definition empty {V : Type} : t V :=
  {| elements := []; properties := JsMap.empty |}.

Definition indexToString (index : N) : string :=
  NilEmpty.string_of_uint (N.to_uint index).

Definition arrayIndex (key : string) : option N :=
  match NilEmpty.uint_of_string key with
  | Some digits =>
      let index := N.of_uint digits in
      if String.eqb (indexToString index) key && (index <? 4294967295)%N
      then Some index else None
  | None => None
  end.

Fixpoint ascending (indices : list N) : Prop :=
  match indices with
  | [] => True
  | index :: rest =>
      Forall (fun later => (index < later)%N) rest /\ ascending rest
  end.

Section Ops.
Context {V : Type}.

Fixpoint setElement (index : N) (value : V) (l : list (N * V))
  : list (N * V) :=
  match l with
  | [] => [(index, value)]
  | (i, v) :: rest =>
      if (index <? i)%N then (index, value) :: (i, v) :: rest
      else if (index =? i)%N then (index, value) :: rest
      else (i, v) :: setElement index value rest
  end.

Fixpoint getElement (index : N) (l : list (N * V)) : option V :=
  match l with
  | [] => None
  | (i, v) :: rest => if (index =? i)%N then Some v else getElement index rest
  end.

(** [object[key] = value], for a value that is an object. *)
Definition assign (key : string) (value : V) (object : t V) : t V :=
  if String.eqb key "__proto__" then object
  else
    match arrayIndex key with
    | Some index =>
        {| elements := setElement index value (elements object);
           properties := properties object |}
    | None =>
        {| elements := elements object;
           properties := JsMap.set key value (properties object) |}
    end.

(** The value of the own property [key], if there is one. *)
Definition getOwn (key : string) (object : t V) : option V :=
  match arrayIndex key with
  | Some index => getElement index (elements object)
  | None => JsMap.get key (properties object)
  end.

(** The own properties, in the order in which [JSON.stringify] writes
    them. *)
Definition entries (object : t V) : list (string * V) :=
  map (fun element => (indexToString (fst element), snd element))
    (elements object)
  ++ properties object.

(** The elements stand by ascending index, under array indices; the
    other properties stand under keys that are no array index, none
    twice. *)
Definition wf (object : t V) : Prop :=
  ascending (map fst (elements object)) /\
  Forall (fun element => (fst element < 4294967295)%N) (elements object) /\
  JsMap.wf (properties object) /\
  Forall (fun property => arrayIndex (fst property) = None)
    (properties object).

End Ops.

End JsObject.

(* ------------------------------------------------------------------ *)
(** ** The rest of the registry: removal, listing, the sweep *)

Module ServerOps.

Import Server.

Record SuccessResponse : Type := {
  message : string
}.

(** The id built by [app.delete('/services/:name/:port')] from
    [parseInt(port)]; [None] is [NaN], which a template literal prints as
    ["NaN"]. *)
Definition createServiceIdOfParam (name ip : string) (port : option Z)
  : string :=
  match port with
  | Some n => createServiceId name ip n
  | None =>
      String.append name (String.append "-" (String.append ip "-NaN"))
  end.

(** [app.delete('/services/:name/:port')]; [port] is [parseInt] of the
    route parameter. *)
Definition remove (req : Req.t) (name : string) (port : option Z)
  (services : ServicesMap) : ServicesMap * Reply SuccessResponse :=
  let ip := getClientIP req in
  let id := createServiceIdOfParam name ip port in
  match JsMap.get name services with
  | None => (services, Status 404 "Service not found")
  | Some serviceGroup =>
      let deleted := JsMap.has id serviceGroup in
      let serviceGroup' := JsMap.delete id serviceGroup in
      let services' :=
        if Nat.eqb (JsMap.size serviceGroup') 0
        then JsMap.delete name services
        else JsMap.set name serviceGroup' services in
      (services',
       if deleted then Json {| message := "Service removed successfully" |}
       else Status 404 "Service instance not found")
  end.

(** One instance of [GET /services]: the instance and its [status]. *)
Definition Tagged : Type := (ServiceInstance * string)%type.

(** [app.get('/services')]: the plain object built by assigning, for
    every group in turn, the array of the tagged live instances under
    the group's name. *)
Definition listAll (now : Z) (services : ServicesMap)
  : JsObject.t (list Tagged) :=
  fold_left
    (fun allServices entry =>
       JsObject.assign (fst entry)
         (map (fun service => (service, "alive"))
            (filter (fun service => isServiceAlive now service)
               (JsMap.values (snd entry))))
         allServices)
    services JsObject.empty.

(** The inner loop of the sweep: every entry of the group is visited
    once, and a dead one is deleted from the group by its key. *)
Definition sweepGroup (now : Z) (serviceGroup : ServiceGroup)
  : ServiceGroup :=
  fold_left
    (fun group entry =>
       if isServiceAlive now (snd entry) then group
       else JsMap.delete (fst entry) group)
    serviceGroup serviceGroup.

(** The callback of [setInterval(..., 60 * 1000)]: every group is swept
    where it stands, and deleted from the store if nothing is left. *)
Definition cleanupDeadServices (now : Z) (services : ServicesMap)
  : ServicesMap :=
  fold_left
    (fun store entry =>
       let serviceGroup := sweepGroup now (snd entry) in
       if Nat.eqb (JsMap.size serviceGroup) 0
       then JsMap.delete (fst entry) store
       else JsMap.set (fst entry) serviceGroup store)
    services services.

(** No name maps to an empty group. *)
Definition noEmptyGroup (services : ServicesMap) : Prop :=
  forall name group, JsMap.get name services = Some group -> group <> [].

(** Every instance is stored under its own id, in the group of its own
    name. *)
Definition keyedById (services : ServicesMap) : Prop :=
  forall name group key service,
    JsMap.get name services = Some group ->
    In (key, service) group ->
    Server.id service = key /\ Server.name service = name.

Definition storeInvariant (services : ServicesMap) : Prop :=
  storeWf services /\ noEmptyGroup services /\ keyedById services.

(** What the sweep leaves of a store: the live entries of every group,
    without the groups that have none. *)
Definition liveEntries (now : Z) (serviceGroup : ServiceGroup)
  : ServiceGroup :=
  filter (fun entry => isServiceAlive now (snd entry)) serviceGroup.

Fixpoint liveGroups (now : Z) (services : ServicesMap) : ServicesMap :=
  match services with
  | [] => []
  | (name, serviceGroup) :: rest =>
      match liveEntries now serviceGroup with
      | [] => liveGroups now rest
      | entry :: entries => (name, entry :: entries) :: liveGroups now rest
      end
  end.

End ServerOps.

(** ** The discover handler of [service-discovery-server/index.js] *)

Module ServerJs.

Import Server.

(** The object literal the handler maps every live instance to. *)
Definition copyFields (service : ServiceInstance) : ServiceInstance :=
  {| id := id service;
     name := name service;
     ip := ip service;
     port := port service;
     lastHeartbeat := lastHeartbeat service;
     registeredAt := registeredAt service;
     heartbeatInterval := heartbeatInterval service |}.

Definition discover (now : Z) (name : string) (services : ServicesMap)
  : Reply ServicesResponse :=
  match JsMap.get name services with
  | None => Json {| services := [] |}
  | Some serviceGroup =>
      let aliveServices :=
        map copyFields
          (filter (fun service => isServiceAlive now service)
             (JsMap.values serviceGroup)) in
      Json {| services := aliveServices |}
  end.

End ServerJs.

(* ------------------------------------------------------------------ *)
(** ** The rest of the TypeScript client: shutdown, cache control,
    status *)

Module ClientLifecycle.

Import ClientCommon ClientOps.

(** [_cleanup]: the timer is stopped and forgotten, the identity and the
    whole cache are dropped. *)
Definition _cleanup (st : State) : State :=
  {| currentService := None;
     heartbeatTimer :=
       match heartbeatTimer st with
       | Some _ => None
       | None => None
       end;
     isRegistered := false;
     serviceCache := JsMap.empty |}.

(** [unregister]; [response] is what the DELETE request comes to.  The
    [catch] block only logs, and [finally] runs [_cleanup] after either
    outcome. *)
Definition unregister (response : Completion unit) (st : State)
  : State * Completion unit * list HttpRequest :=
  match currentService st with
  | None => (st, Returned tt, [])
  | Some cs =>
      if negb (isRegistered st) then (st, Returned tt, [])
      else
        let sent := [DELETE_services (name cs) (port cs)] in
        match response with
        | Returned _ => (_cleanup st, Returned tt, sent)
        | Thrown _ => (_cleanup st, Returned tt, sent)
        end
  end.

Definition clearCache (st : State) : State :=
  {| currentService := currentService st;
     heartbeatTimer := heartbeatTimer st;
     isRegistered := isRegistered st;
     serviceCache := JsMap.empty |}.

(** [this.currentService?.id ||
    `${this.currentService?.name}-${this.currentService?.port}`]:
    without a current service both interpolations print
    ["undefined"]. *)
Definition getServiceId (st : State) : string :=
  match currentService st with
  | Some cs =>
      if String.eqb (id cs) ""
      then String.append (name cs)
             (String.append "-" (numberToString (port cs)))
      else id cs
  | None => "undefined-undefined"
  end.

(** [getServiceUrl] as a method of the client object: the cache it reads
    and writes is the [serviceCache] field. *)
Definition resolve (options : ServiceDiscoveryClientOptions) (w : World)
  (serviceName : string) (st : State)
  : State * Completion string * list HttpRequest :=
  let r := Client.getServiceUrl options w serviceName (serviceCache st) in
  ({| currentService := currentService st;
      heartbeatTimer := heartbeatTimer st;
      isRegistered := isRegistered st;
      serviceCache := cacheAfter r |},
   result r, requests r).

Record ServiceCacheStatus : Type := {
  servicesCount : nat;
  status_cachedAt : string;
  status_expiresAt : string;
  isValid : bool;
  timeToExpiry : Z
}.

Section CacheStatus.

(** [new Date(millis).toISOString()], which the status applies to the
    two timestamps of an entry. *)
Variable toISOString : Z -> string.

Definition statusOf (now : Z) (cacheEntry : ServiceCacheEntry)
  : ServiceCacheStatus :=
  {| servicesCount := List.length (services cacheEntry);
     status_cachedAt := toISOString (cachedAt cacheEntry);
     status_expiresAt := toISOString (expiresAt cacheEntry);
     isValid := now <? expiresAt cacheEntry;
     timeToExpiry := Z.max 0 (expiresAt cacheEntry - now) |}.

(** [getCacheStatus]: the object built by assigning the status of every
    entry under its service name. *)
Definition getCacheStatus (now : Z) (cache : ServiceCache)
  : JsMap.t ServiceCacheStatus :=
  fold_left
    (fun status entry =>
       JsMap.set (fst entry) (statusOf now (snd entry)) status)
    cache JsMap.empty.

End CacheStatus.

(** The cache is a [Map], and no entry of it is without instances. *)
Definition cacheInvariant (cache : ServiceCache) : Prop :=
  JsMap.wf cache /\
  forall serviceName entry,
    JsMap.get serviceName cache = Some entry -> services entry <> [].

(** The fetch failed, or returned no instance. *)
Definition nothingFetched (w : World) : Prop :=
  forall fresh, _fetchServices (fetched w) = Returned fresh -> fresh = [].

End ClientLifecycle.

(* ------------------------------------------------------------------ *)
(** ** [CircuitBreakerClassWrapper] *)

Module ClassWrapper.

Import CircuitBreaker.

Section Wrapper.

(** One type of argument lists and one of results serve all the methods
    of the wrapped object. *)
Variables Args Ret : Type.

Record MethodCircuitBreakerConfig : Type := {
  circuitBreakerConfig : CircuitBreakerConfig;
  fallbackMethod : Method Args Ret
}.

(** [Object.entries(methodConfigurations)]: a method name, and its
    configuration unless it is [undefined]. *)
Definition ClassMethodConfigurations : Type :=
  list (string * option MethodCircuitBreakerConfig).

(** The wrapper object: the function-valued properties of the wrapped
    instance, and the breakers, by method name. *)
Record CircuitBreakerClassWrapper : Type := {
  originalClassInstance : JsMap.t (Method Args Ret);
  methodCircuitBreakers : JsMap.t (SingleMethodCircuitBreaker Args Ret)
}.

Definition initializeCircuitBreakersForMethods
  (methodConfigurations : ClassMethodConfigurations)
  : JsMap.t (SingleMethodCircuitBreaker Args Ret) :=
  fold_left
    (fun breakers entry =>
       match snd entry with
       | None => breakers
       | Some config =>
           JsMap.set (fst entry)
             (newSingleMethodCircuitBreaker (fst entry)
                (circuitBreakerConfig config) (fallbackMethod config))
             breakers
       end)
    methodConfigurations JsMap.empty.

Definition newCircuitBreakerClassWrapper
  (originalClassInstance : JsMap.t (Method Args Ret))
  (methodConfigurations : ClassMethodConfigurations)
  : CircuitBreakerClassWrapper :=
  {| originalClassInstance := originalClassInstance;
     methodCircuitBreakers :=
       initializeCircuitBreakersForMethods methodConfigurations |}.

(** [getCircuitBreakerStatus(methodName)] for a name that is given and
    not empty. *)
Definition getCircuitBreakerStatus (w : CircuitBreakerClassWrapper)
  (key : string) : option Status :=
  match JsMap.get key (methodCircuitBreakers w) with
  | Some circuitBreaker => Some (getCurrentStatus circuitBreaker)
  | None => None
  end.

End Wrapper.

Arguments circuitBreakerConfig {Args Ret} _.
Arguments fallbackMethod {Args Ret} _ _.
Arguments originalClassInstance {Args Ret} _.
Arguments methodCircuitBreakers {Args Ret} _.
Arguments initializeCircuitBreakersForMethods {Args Ret} methodConfigurations.
Arguments newCircuitBreakerClassWrapper {Args Ret} originalClassInstance
  methodConfigurations.
Arguments getCircuitBreakerStatus {Args Ret} w key.

End ClassWrapper.

(* ------------------------------------------------------------------ *)
(** ** The API gateway ([api-gateway.app.ts]): the two protected calls *)

Module Gateway.

Import CircuitBreaker.

Record User : Type := {
  id : Z;
  name : string;
  email : string;
  age : Z
}.

Record Order : Type := {
  order_id : Z;
  userId : Z;
  products : list string
}.

Definition fallbackUsers : list User :=
  [ {| id := 1; name := "Fallback User"; email := "fallback@example.com";
       age := 25 |};
    {| id := 2; name := "Default User"; email := "default@example.com";
       age := 30 |} ].

Definition fallbackOrders : list Order :=
  [ {| order_id := 1; userId := 1; products := ["Fallback Product"] |};
    {| order_id := 2; userId := 2; products := ["Fallback Product"] |} ].

Definition getUsersFallback : Method unit (list User) :=
  fun _ => Returned fallbackUsers.

Definition getOrdersFallback : Method Z (list Order) :=
  fun requested =>
    Returned (filter (fun order => userId order =? requested) fallbackOrders).

(** The breakers behind [protectedFetchUsers] and
    [protectedFetchOrders]. *)
Definition protectedFetchUsers : SingleMethodCircuitBreaker unit (list User) :=
  createCircuitBreakerMethod "fetchUsersFromService"
    (Some {| maximumFailuresAllowed := 3;
             timeWindowInMilliseconds := 30000;
             resetTimeoutInMilliseconds := 30000 |})
    (Some getUsersFallback).

Definition protectedFetchOrders : SingleMethodCircuitBreaker Z (list Order) :=
  createCircuitBreakerMethod "fetchOrdersFromService"
    (Some {| maximumFailuresAllowed := 3;
             timeWindowInMilliseconds := 30000;
             resetTimeoutInMilliseconds := 10000 |})
    (Some getOrdersFallback).

End Gateway.

(** A wrapped object with two methods, of which one is protected. *)
Module WrapperScenario.

Import CircuitBreaker ClassWrapper BreakerScenario.

Definition apiService : JsMap.t (Method (list Z) string) :=
  [("fetchData", refusing); ("ping", answering)].

Definition methodConfigs : ClassMethodConfigurations (list Z) string :=
  [("fetchData",
    Some {| circuitBreakerConfig := scenarioConfiguration;
            fallbackMethod := cachedAnswer |})].

Definition wrapper : CircuitBreakerClassWrapper (list Z) string :=
  newCircuitBreakerClassWrapper apiService methodConfigs.

End WrapperScenario.

(* ================================================================== *)
(** * Properties *)

(** Decide a comparison of integers that the context settles. *)
Ltac zdecide :=
  repeat match goal with
  | |- context [?a >? ?b] =>
      first [ replace (a >? b) with true
                by (symmetry; apply Z.gtb_lt; lia)
            | replace (a >? b) with false
                by (symmetry; rewrite Z.gtb_ltb; apply Z.ltb_ge; lia) ]
  | |- context [?a >=? ?b] =>
      first [ replace (a >=? b) with true
                by (symmetry; rewrite Z.geb_leb; apply Z.leb_le; lia)
            | replace (a >=? b) with false
                by (symmetry; rewrite Z.geb_leb; apply Z.leb_gt; lia) ]
  | |- context [?a <? ?b] =>
      first [ replace (a <? b) with true
                by (symmetry; apply Z.ltb_lt; lia)
            | replace (a <? b) with false
                by (symmetry; apply Z.ltb_ge; lia) ]
  end.

(* ------------------------------------------------------------------ *)
(** ** The circuit breaker *)

Module BreakerFacts.

Import CircuitBreaker.

Section Facts.

Context {Args Ret : Type}.

Local Abbreviation Breaker := (SingleMethodCircuitBreaker Args Ret).

Lemma length_filter_le (f : Z -> bool) (l : list Z) :
  (List.length (filter f l) <= List.length l)%nat.
Proof.
  induction l as [|x l IH]; simpl; [lia|].
  destruct (f x); simpl; lia.
Qed.

Lemma beforeCall_configuration (now : Z) (b : Breaker) :
  configuration (beforeCall now b) = configuration b.
Proof.
  unfold beforeCall.
  destruct (shouldOpenCircuit _); destruct (shouldAttemptRecovery _ _);
    reflexivity.
Qed.

Lemma beforeCall_fallback (now : Z) (b : Breaker) :
  fallbackMethodToCall (beforeCall now b) = fallbackMethodToCall b.
Proof.
  unfold beforeCall.
  destruct (shouldOpenCircuit _); destruct (shouldAttemptRecovery _ _);
    reflexivity.
Qed.

Lemma beforeCall_failures (now : Z) (b : Breaker) :
  failureTimestampsWithinWindow (beforeCall now b) =
  filter (fun timestamp =>
            timestamp >? now - timeWindowInMilliseconds (configuration b))
    (failureTimestampsWithinWindow b).
Proof.
  unfold beforeCall.
  destruct (shouldOpenCircuit _); destruct (shouldAttemptRecovery _ _);
    reflexivity.
Qed.

Lemma execute_configuration (b : Breaker) op args now :
  configuration (breakerAfter (executeWithCircuitBreaker b op args now)) =
  configuration b.
Proof.
  unfold executeWithCircuitBreaker.
  destruct (isCircuitCurrentlyOpen (beforeCall now b)); simpl;
    [|destruct (op args); simpl]; apply beforeCall_configuration.
Qed.

Lemma execute_fallback (b : Breaker) op args now :
  fallbackMethodToCall (breakerAfter (executeWithCircuitBreaker b op args now))
  = fallbackMethodToCall b.
Proof.
  unfold executeWithCircuitBreaker.
  destruct (isCircuitCurrentlyOpen (beforeCall now b)); simpl;
    [|destruct (op args); simpl]; apply beforeCall_fallback.
Qed.

Lemma runCalls_fallback (cs : list (Call Args Ret)) : forall b : Breaker,
  fallbackMethodToCall (fst (runCalls b cs)) = fallbackMethodToCall b.
Proof.
  induction cs as [|c cs IH]; intros b; simpl; [reflexivity|].
  destruct (runCalls (breakerAfter (step b c)) cs) as [b' es] eqn:E.
  simpl. specialize (IH (breakerAfter (step b c))). rewrite E in IH.
  simpl in IH. rewrite IH. apply execute_fallback.
Qed.

Lemma runCalls_app (cs1 cs2 : list (Call Args Ret)) : forall b : Breaker,
  runCalls b (cs1 ++ cs2) =
  let '(b1, es1) := runCalls b cs1 in
  let '(b2, es2) := runCalls b1 cs2 in
  (b2, es1 ++ es2).
Proof.
  induction cs1 as [|c cs1 IH]; intros b; simpl.
  - destruct (runCalls b cs2); reflexivity.
  - rewrite IH. destruct (runCalls (breakerAfter (step b c)) cs1) as [b1 es1].
    destruct (runCalls b1 cs2); reflexivity.
Qed.

(** An open circuit whose reset time has not come stays as it is. *)
Lemma beforeCall_open_early (now : Z) (b : Breaker) :
  isCircuitCurrentlyOpen b = true ->
  now < nextAllowedAttemptTime b ->
  beforeCall now b = removeOldFailureRecords now b.
Proof.
  intros Ho Ht. unfold beforeCall, shouldOpenCircuit, shouldAttemptRecovery.
  simpl. rewrite Ho. simpl. zdecide. rewrite ?Ho. reflexivity.
Qed.

(** A closed circuit with fewer failures on record than the maximum stays
    closed. *)
Lemma beforeCall_closed_below (now : Z) (b : Breaker) :
  isCircuitCurrentlyOpen b = false ->
  Z.of_nat (List.length (failureTimestampsWithinWindow b))
    < maximumFailuresAllowed (configuration b) ->
  beforeCall now b = removeOldFailureRecords now b.
Proof.
  destruct b as [n cfg fb o fs t]; simpl. intros -> Hlen.
  unfold beforeCall, shouldOpenCircuit, shouldAttemptRecovery. simpl.
  pose proof (length_filter_le
    (fun timestamp => timestamp >? now - timeWindowInMilliseconds cfg) fs)
    as Hle.
  zdecide. reflexivity.
Qed.

(** An open circuit whose reset time has come is half-open: closed for
    this call. *)
Lemma beforeCall_open_due (now : Z) (b : Breaker) :
  isCircuitCurrentlyOpen b = true ->
  nextAllowedAttemptTime b <= now ->
  beforeCall now b = setCircuitToHalfOpen (removeOldFailureRecords now b).
Proof.
  intros Ho Ht. unfold beforeCall, shouldOpenCircuit, shouldAttemptRecovery.
  simpl. rewrite Ho. simpl. zdecide. rewrite ?Ho. reflexivity.
Qed.

Lemma attempted_closed (b : Breaker) op args now :
  attempted (executeWithCircuitBreaker b op args now) args ->
  isCircuitCurrentlyOpen (beforeCall now b) = false.
Proof.
  unfold attempted, executeWithCircuitBreaker.
  destruct (isCircuitCurrentlyOpen (beforeCall now b)); simpl; [|reflexivity].
  intros [H|[]]; discriminate.
Qed.

End Facts.

End BreakerFacts.

Module BreakerClaims.

Import CircuitBreaker BreakerFacts BreakerScenario.

Section Claims.

Context {Args Ret : Type}.

Local Abbreviation Breaker := (SingleMethodCircuitBreaker Args Ret).

(** One failing call on a closed circuit that is below its maximum: the
    method is tried, the failure is recorded at the time of the call, and
    the fallback answers. *)
Lemma step_failing_below (b : Breaker) (c : Call Args Ret) :
  isCircuitCurrentlyOpen b = false ->
  Z.of_nat (List.length (failureTimestampsWithinWindow b))
    < maximumFailuresAllowed (configuration b) ->
  failing c ->
  step b c =
  {| breakerAfter :=
       handleFailedExecution (callTime c)
         (removeOldFailureRecords (callTime c) b);
     completion := fallbackMethodToCall b (callArguments c);
     invocations := [InvokedOriginal (callArguments c);
                     InvokedFallback (callArguments c)] |}.
Proof.
  intros Hc Hlen [err Herr]. unfold step, executeWithCircuitBreaker.
  rewrite (beforeCall_closed_below _ _ Hc Hlen). simpl.
  rewrite Hc, Herr. reflexivity.
Qed.

(** C1, as the code has it.  With [maxFailures = 3], [windowMs = 10000]
    and [resetTimeoutMs = 5000], three failing calls within two seconds
    leave three failures on record and the open flag still unset; the
    next call, made while the three failures are inside the window (a
    fourth call at 2.5 s is), opens the circuit with
    [nextAllowedAttemptTime] five seconds after that call and returns the
    fallback's result without invoking the protected method; and every
    call made while the circuit is open and before
    [nextAllowedAttemptTime] returns the fallback's result without
    invoking the protected method, leaving the circuit open. *)
Theorem three_failures_open_at_next_call :
  forall (name : string) (fallback : Method Args Ret)
         (c1 c2 c3 : Call Args Ret),
    failing c1 -> failing c2 -> failing c3 ->
    callTime c1 <= callTime c2 -> callTime c2 <= callTime c3 ->
    callTime c3 <= callTime c1 + 2000 ->
    let b3 :=
      fst (runCalls
             (newSingleMethodCircuitBreaker name scenarioConfiguration
                fallback) [c1; c2; c3]) in
    (isCircuitCurrentlyOpen b3 = false /\
     failureTimestampsWithinWindow b3 =
       [callTime c1; callTime c2; callTime c3]) /\
    (forall op args now,
        now < callTime c1 + 10000 ->
        let e := executeWithCircuitBreaker b3 op args now in
        completion e = fallback args /\
        invocations e = [InvokedFallback args] /\
        isCircuitCurrentlyOpen (breakerAfter e) = true /\
        nextAllowedAttemptTime (breakerAfter e) = now + 5000) /\
    (forall (b : Breaker) op args now,
        isCircuitCurrentlyOpen b = true ->
        now < nextAllowedAttemptTime b ->
        let e := executeWithCircuitBreaker b op args now in
        completion e = fallbackMethodToCall b args /\
        invocations e = [InvokedFallback args] /\
        isCircuitCurrentlyOpen (breakerAfter e) = true /\
        nextAllowedAttemptTime (breakerAfter e) = nextAllowedAttemptTime b).
Proof.
  intros name fallback c1 c2 c3 F1 F2 F3 H12 H23 H31 b3.
  assert (Hb3 : b3 =
    {| methodName := name; configuration := scenarioConfiguration;
       fallbackMethodToCall := fallback; isCircuitCurrentlyOpen := false;
       failureTimestampsWithinWindow :=
         [callTime c1; callTime c2; callTime c3];
       nextAllowedAttemptTime := 0 |}).
  { subst b3. simpl.
    rewrite (step_failing_below _ c1); [|reflexivity|simpl; lia|assumption].
    simpl.
    rewrite (step_failing_below _ c2); [|reflexivity|simpl; lia|assumption].
    unfold handleFailedExecution, removeOldFailureRecords. simpl.
    zdecide. simpl.
    rewrite (step_failing_below _ c3); [|reflexivity|simpl; lia|assumption].
    unfold handleFailedExecution, removeOldFailureRecords. simpl.
    zdecide. reflexivity. }
  split; [rewrite Hb3; split; reflexivity|]. split.
  - intros op args now Hnow e. subst e. rewrite Hb3.
    unfold executeWithCircuitBreaker, beforeCall, removeOldFailureRecords,
      shouldOpenCircuit, shouldAttemptRecovery. simpl.
    zdecide. simpl. zdecide. simpl. repeat split; reflexivity.
  - intros b op args now Ho Hearly e. subst e.
    unfold executeWithCircuitBreaker.
    rewrite (beforeCall_open_early _ _ Ho Hearly). simpl. rewrite Ho.
    simpl. repeat split; assumption || reflexivity.
Qed.

(** A call that finds the circuit closed with fewer failures inside the
    window than the maximum, or open with its reset time come, finds it
    not open when it consults it. *)
Lemma beforeCall_tried (now : Z) (b : Breaker) :
  (isCircuitCurrentlyOpen b = false /\
   Z.of_nat
     (List.length
        (filter (fun timestamp =>
                   timestamp >? now - timeWindowInMilliseconds (configuration b))
           (failureTimestampsWithinWindow b)))
   < maximumFailuresAllowed (configuration b)) \/
  (isCircuitCurrentlyOpen b = true /\ nextAllowedAttemptTime b <= now) ->
  isCircuitCurrentlyOpen (beforeCall now b) = false.
Proof.
  destruct b as [n cfg fb o fs t].
  cbn [isCircuitCurrentlyOpen configuration failureTimestampsWithinWindow
       nextAllowedAttemptTime].
  unfold beforeCall, shouldOpenCircuit, shouldAttemptRecovery,
    removeOldFailureRecords, setCircuitToHalfOpen.
  intros [[-> Hlen]|[-> Hdue]]; simpl; zdecide; reflexivity.
Qed.


(** A run of failing calls on a closed circuit that stays below the
    maximum: every call tries the protected method and the circuit stays
    closed. *)
Lemma failures_below_maximum (cs : list (Call Args Ret)) :
  forall b : Breaker,
    isCircuitCurrentlyOpen b = false ->
    Z.of_nat (List.length (failureTimestampsWithinWindow b))
      + Z.of_nat (List.length cs)
      < maximumFailuresAllowed (configuration b) ->
    Forall failing cs ->
    let '(b', es) := runCalls b cs in
    isCircuitCurrentlyOpen b' = false /\
    configuration b' = configuration b /\
    Z.of_nat (List.length (failureTimestampsWithinWindow b'))
      <= Z.of_nat (List.length (failureTimestampsWithinWindow b))
         + Z.of_nat (List.length cs) /\
    Forall2 (fun c e => attempted e (callArguments c)
                        /\ isCircuitCurrentlyOpen (breakerAfter e) = false)
      cs es.
Proof.
  induction cs as [|c cs IH]; intros b Hc Hlen Hf.
  - simpl. split; [exact Hc|split; [reflexivity|split; [lia|constructor]]].
  - inversion Hf as [|c' cs' Hfc Hfcs]; subst.
    change (List.length (c :: cs)) with (S (List.length cs)) in *.
    rewrite Nat2Z.inj_succ in *.
    cbn [runCalls].
    rewrite (step_failing_below b c Hc); [|lia|assumption].
    cbn [breakerAfter].
    set (b1 := handleFailedExecution (callTime c)
                 (removeOldFailureRecords (callTime c) b)).
    pose proof (length_filter_le
      (fun timestamp =>
         timestamp >? callTime c
                      - timeWindowInMilliseconds (configuration b))
      (failureTimestampsWithinWindow b)) as Hle.
    assert (Hl1 : Z.of_nat (List.length (failureTimestampsWithinWindow b1))
                  <= Z.of_nat (List.length (failureTimestampsWithinWindow b))
                     + 1).
    { subst b1. simpl. rewrite length_app. simpl. lia. }
    assert (Hcfg1 : configuration b1 = configuration b) by reflexivity.
    assert (Hc1 : isCircuitCurrentlyOpen b1 = false) by exact Hc.
    specialize (IH b1 Hc1). rewrite Hcfg1 in IH.
    destruct (runCalls b1 cs) as [b' es].
    destruct IH as (Ho & Hcfg & Hlen' & Hall); [lia|assumption|].
    split; [exact Ho|split; [exact Hcfg|split; [lia|]]].
    constructor; [|assumption]. split; [left; reflexivity|exact Hc].
Qed.

(** C9.  Whenever a call tries the protected method and the method
    returns, whether the circuit was closed or half-open for a trial, the
    failures on record are cleared: the status shows a failure count of
    zero and a closed circuit.  Failures do not add up across a success:
    on a closed circuit, at most [maximumFailuresAllowed - 1] failures
    (counting those already on record), one success, then at most
    [maximumFailuresAllowed - 1] more failures never open the circuit,
    and every one of these calls tries the protected method. *)
Theorem success_clears_failure_history :
  (forall (b : Breaker) (original : Method Args Ret) (args : Args) (now : Z)
          (r : Ret),
      let e := executeWithCircuitBreaker b original args now in
      attempted e args ->
      original args = Returned r ->
      completion e = Returned r /\
      failureTimestampsWithinWindow (breakerAfter e) = [] /\
      currentFailureCount (getCurrentStatus (breakerAfter e)) = 0%nat /\
      isCircuitOpen (getCurrentStatus (breakerAfter e)) = false) /\
  (forall (b : Breaker) (earlier later : list (Call Args Ret))
          (success : Call Args Ret) (r : Ret),
      isCircuitCurrentlyOpen b = false ->
      Forall failing earlier ->
      Z.of_nat (List.length (failureTimestampsWithinWindow b))
        + Z.of_nat (List.length earlier)
        <= maximumFailuresAllowed (configuration b) - 1 ->
      callMethod success (callArguments success) = Returned r ->
      Forall failing later ->
      Z.of_nat (List.length later)
        <= maximumFailuresAllowed (configuration b) - 1 ->
      let '(b', es) := runCalls b (earlier ++ success :: later) in
      isCircuitCurrentlyOpen b' = false /\
      Forall2 (fun c e => attempted e (callArguments c)
                          /\ isCircuitCurrentlyOpen (breakerAfter e) = false)
        (earlier ++ success :: later) es).
Proof.
  split.
  - intros b original args now r e Hatt Hret.
    pose proof (attempted_closed _ _ _ _ Hatt) as Hclosed.
    subst e. unfold executeWithCircuitBreaker in *.
    rewrite Hclosed, Hret. simpl. repeat split. exact Hclosed.
  - intros b earlier later success r Hc Hfe Hle Hret Hfl Hll.
    rewrite runCalls_app.
    pose proof (failures_below_maximum earlier b Hc) as H1.
    destruct (runCalls b earlier) as [b1 es1].
    destruct H1 as (Ho1 & Hcfg1 & Hlen1 & Hall1); [lia|assumption|].
    cbn [runCalls].
    assert (Hs : step b1 success =
                 {| breakerAfter :=
                      handleSuccessfulExecution
                        (removeOldFailureRecords (callTime success) b1);
                    completion := Returned r;
                    invocations := [InvokedOriginal (callArguments success)] |}).
    { unfold step, executeWithCircuitBreaker.
      rewrite (beforeCall_closed_below _ _ Ho1); [|rewrite Hcfg1; lia].
      simpl. rewrite Ho1, Hret. reflexivity. }
    rewrite Hs. cbn [breakerAfter].
    set (b2 := handleSuccessfulExecution
                 (removeOldFailureRecords (callTime success) b1)).
    assert (Hc2 : isCircuitCurrentlyOpen b2 = false) by exact Ho1.
    assert (Hcfg2 : configuration b2 = configuration b) by exact Hcfg1.
    pose proof (failures_below_maximum later b2 Hc2) as H2.
    rewrite Hcfg2 in H2.
    destruct (runCalls b2 later) as [b3 es3].
    destruct H2 as (Ho3 & _ & _ & Hall3);
      [subst b2; simpl; lia|assumption|].
    split; [exact Ho3|].
    apply Forall2_app; [exact Hall1|].
    constructor; [|exact Hall3].
    split; [left; reflexivity|exact Hc2].
Qed.

(** What a call on an open circuit whose reset time has come does: it
    tries the protected method, once; a success clears the failures and
    leaves the circuit closed; a failure is put on record, and leaves the
    open flag unset and [nextAllowedAttemptTime] as it was. *)
Lemma trial_call_outcomes (b : Breaker) (original : Method Args Ret)
  (args : Args) (now : Z) :
  isCircuitCurrentlyOpen b = true ->
  nextAllowedAttemptTime b <= now ->
  let e := executeWithCircuitBreaker b original args now in
  match original args with
  | Returned r =>
      invocations e = [InvokedOriginal args] /\
      completion e = Returned r /\
      isCircuitCurrentlyOpen (breakerAfter e) = false /\
      failureTimestampsWithinWindow (breakerAfter e) = []
  | Thrown _ =>
      invocations e = [InvokedOriginal args; InvokedFallback args] /\
      completion e = fallbackMethodToCall b args /\
      isCircuitCurrentlyOpen (breakerAfter e) = false /\
      nextAllowedAttemptTime (breakerAfter e) = nextAllowedAttemptTime b /\
      In now (failureTimestampsWithinWindow (breakerAfter e))
  end.
Proof.
  intros Ho Hdue e. subst e. unfold executeWithCircuitBreaker.
  rewrite (beforeCall_open_due _ _ Ho Hdue). simpl.
  destruct (original args); simpl; repeat split.
  apply in_or_app. right. left. reflexivity.
Qed.

End Claims.

(** C1, as stated, on the scenario: after the three failing calls at 0 s,
    1 s and 2 s the status query shows three failures and a circuit that
    is not open. *)
Lemma three_failures_flag_not_open :
  Forall failing [failingCallAt 0; failingCallAt 1000; failingCallAt 2000]
  /\ currentFailureCount (getCurrentStatus afterThreeFailures) = 3%nat
  /\ ~ isCircuitOpen (getCurrentStatus afterThreeFailures) = true.
Proof.
  split; [|split].
  - repeat constructor; exists "connect ECONNREFUSED"; reflexivity.
  - reflexivity.
  - vm_compute. discriminate.
Qed.

(** C2, on the scenario.  The fourth call, at 2.5 s, opens the circuit
    until 7.5 s.  The call at 7.5 s is the trial: it tries the protected
    method, which fails.  The circuit is then not open, and
    [nextAllowedAttemptTime] is still 7.5 s, not 12.5 s; the call at
    12.1 s, less than [resetTimeoutMs] after the failed trial, reaches
    the protected method again. *)
Theorem failed_trial_leaves_circuit_closed :
  (isCircuitCurrentlyOpen opened = true /\
   nextAllowedAttemptTime opened = 7500) /\
  invocations (step opened (failingCallAt 7500)) =
    [InvokedOriginal [7]; InvokedFallback [7]] /\
  afterFailedTrial = breakerAfter (step opened (failingCallAt 7500)) /\
  isCircuitOpen (getCurrentStatus afterFailedTrial) = false /\
  nextAllowedAttemptTime afterFailedTrial = 7500 /\
  failureTimestampsWithinWindow afterFailedTrial = [0; 1000; 2000; 7500] /\
  invocations (step afterFailedTrial (failingCallAt 12100)) =
    [InvokedOriginal [7]; InvokedFallback [7]].
Proof.
  repeat split; vm_compute; reflexivity.
Qed.

Lemma three_failures_open_at_next_call_witness :
  (failing (failingCallAt 0) /\ failing (failingCallAt 1000)
   /\ failing (failingCallAt 2000)) /\
  (let e := executeWithCircuitBreaker afterThreeFailures refusing [7] 2500 in
   completion e = Returned "fallback" /\
   invocations e = [InvokedFallback [7]] /\
   isCircuitCurrentlyOpen (breakerAfter e) = true /\
   nextAllowedAttemptTime (breakerAfter e) = 7500) /\
  (isCircuitCurrentlyOpen opened = true /\
   3000 < nextAllowedAttemptTime opened) /\
  (let e := executeWithCircuitBreaker opened answering [7] 3000 in
   completion e = Returned "fallback" /\
   invocations e = [InvokedFallback [7]] /\
   isCircuitCurrentlyOpen (breakerAfter e) = true /\
   nextAllowedAttemptTime (breakerAfter e) = 7500).
Proof.
  assert (F : forall t, failing (failingCallAt t))
    by (intros t; exists "connect ECONNREFUSED"; reflexivity).
  split; [repeat split; apply F|].
  destruct (three_failures_open_at_next_call "getUser" cachedAnswer
              (failingCallAt 0) (failingCallAt 1000) (failingCallAt 2000)
              (F _) (F _) (F _)) as (_ & H & H'); [simpl; lia ..|].
  split; [apply (H refusing [7] 2500); simpl; lia|].
  split; [split; [reflexivity|simpl; lia]|].
  apply (H' opened answering [7] 3000); [reflexivity|simpl; lia].
Defined.


Lemma success_clears_failure_history_witness :
  (attempted (executeWithCircuitBreaker afterThreeFailures answering [7] 20000)
     [7] /\
   answering [7] = Returned "fresh") /\
  currentFailureCount
    (getCurrentStatus
       (breakerAfter
          (executeWithCircuitBreaker afterThreeFailures answering [7] 20000)))
    = 0%nat /\
  (Forall failing [failingCallAt 0; failingCallAt 1000] /\
   Forall failing [failingCallAt 2000; failingCallAt 2500]) /\
  (let '(b', es) :=
     runCalls breaker0
       ([failingCallAt 0; failingCallAt 1000]
          ++ succeedingCallAt 1500
          :: [failingCallAt 2000; failingCallAt 2500]) in
   isCircuitCurrentlyOpen b' = false /\
   Forall2 (fun c e => attempted e (callArguments c)
                       /\ isCircuitCurrentlyOpen (breakerAfter e) = false)
     ([failingCallAt 0; failingCallAt 1000]
        ++ succeedingCallAt 1500
        :: [failingCallAt 2000; failingCallAt 2500]) es).
Proof.
  assert (F : forall t, failing (failingCallAt t))
    by (intros t; exists "connect ECONNREFUSED"; reflexivity).
  assert (F2 : forall t u, Forall failing [failingCallAt t; failingCallAt u])
    by (intros; repeat constructor; apply F).
  assert (A : attempted
                (executeWithCircuitBreaker afterThreeFailures answering [7]
                   20000) [7])
    by (left; reflexivity).
  split; [split; [exact A|reflexivity]|].
  split.
  { apply (proj1 success_clears_failure_history afterThreeFailures answering
             [7] 20000 "fresh" A eq_refl). }
  split; [split; apply F2|].
  apply (proj2 success_clears_failure_history breaker0
           [failingCallAt 0; failingCallAt 1000]
           [failingCallAt 2000; failingCallAt 2500]
           (succeedingCallAt 1500) "fresh" eq_refl (F2 _ _)).
  - simpl. lia.
  - reflexivity.
  - apply F2.
  - simpl. lia.
Defined.

End BreakerClaims.

(* ------------------------------------------------------------------ *)
(** ** Maps *)

Module JsMapFacts.

Section Facts.

Context {V : Type}.

Implicit Types (k : string) (v : V) (m : list (string * V)).

Lemma get_set_eq k v m : JsMap.get k (JsMap.set k v m) = Some v.
Proof.
  induction m as [|[k' v'] m IH]; simpl.
  - rewrite String.eqb_refl. reflexivity.
  - destruct (String.eqb k k') eqn:E; simpl.
    + rewrite String.eqb_refl. reflexivity.
    + rewrite E. exact IH.
Qed.

Lemma get_set_neq k k' v m :
  k <> k' -> JsMap.get k' (JsMap.set k v m) = JsMap.get k' m.
Proof.
  intros Hne. induction m as [|[k0 v0] m IH]; simpl.
  - destruct (String.eqb k' k) eqn:E; [|reflexivity].
    apply String.eqb_eq in E. congruence.
  - destruct (String.eqb k k0) eqn:E; simpl.
    + apply String.eqb_eq in E. subst k0.
      destruct (String.eqb k' k) eqn:E'; [|reflexivity].
      apply String.eqb_eq in E'. congruence.
    + rewrite IH. reflexivity.
Qed.

Lemma has_set k v m : JsMap.has k (JsMap.set k v m) = true.
Proof. unfold JsMap.has. rewrite get_set_eq. reflexivity. Qed.

Lemma has_In_keys k m : JsMap.has k m = true <-> In k (JsMap.keys m).
Proof.
  unfold JsMap.has. induction m as [|[k' v'] m IH]; simpl.
  - split; [discriminate|intros []].
  - destruct (String.eqb k k') eqn:E.
    + apply String.eqb_eq in E. split; auto.
    + apply String.eqb_neq in E. rewrite IH. split; [auto|].
      intros [H|H]; [congruence|exact H].
Qed.

(** Setting a key that is present keeps every key where it is. *)
Lemma keys_set_present k v m :
  JsMap.has k m = true -> JsMap.keys (JsMap.set k v m) = JsMap.keys m.
Proof.
  unfold JsMap.has. induction m as [|[k' v'] m IH]; simpl; [discriminate|].
  destruct (String.eqb k k') eqn:E; simpl.
  - apply String.eqb_eq in E. subst. reflexivity.
  - intros H. rewrite (IH H). reflexivity.
Qed.

Lemma keys_set_absent k v m :
  JsMap.has k m = false -> JsMap.keys (JsMap.set k v m) = JsMap.keys m ++ [k].
Proof.
  unfold JsMap.has. induction m as [|[k' v'] m IH]; simpl; [reflexivity|].
  destruct (String.eqb k k') eqn:E; simpl; [discriminate|].
  intros H. rewrite (IH H). reflexivity.
Qed.

Lemma wf_set k v m : JsMap.wf m -> JsMap.wf (JsMap.set k v m).
Proof.
  unfold JsMap.wf. intros Hwf.
  destruct (JsMap.has k m) eqn:E.
  - rewrite keys_set_present; assumption.
  - rewrite keys_set_absent by assumption.
    apply NoDup_app; [assumption|repeat constructor; intros []|].
    intros x Hx [Hk|[]]. subst x.
    apply has_In_keys in Hx. congruence.
Qed.

(** Under distinct keys, the key just set holds one entry. *)
Lemma entriesUnder_set k v m :
  JsMap.wf m -> JsMap.entriesUnder k (JsMap.set k v m) = [(k, v)].
Proof.
  unfold JsMap.wf, JsMap.entriesUnder.
  induction m as [|[k' v'] m IH]; simpl; intros Hwf.
  - rewrite String.eqb_refl. reflexivity.
  - inversion Hwf as [|x l Hnotin Hnd]; subst.
    destruct (String.eqb k k') eqn:E; simpl.
    + rewrite String.eqb_refl. f_equal.
      apply String.eqb_eq in E. subst k'.
      clear IH Hwf Hnd. induction m as [|[k1 v1] m IH]; simpl; [reflexivity|].
      simpl in Hnotin.
      destruct (String.eqb k k1) eqn:E1.
      * apply String.eqb_eq in E1. subst. exfalso. apply Hnotin. left.
        reflexivity.
      * apply IH. intros H. apply Hnotin. right. exact H.
    + rewrite E. apply IH. exact Hnd.
Qed.

(** Setting a key that is present replaces its value where it stands. *)
Lemma values_set_present k v m old :
  JsMap.get k m = Some old ->
  exists l1 l2,
    JsMap.values m = l1 ++ old :: l2 /\
    JsMap.values (JsMap.set k v m) = l1 ++ v :: l2.
Proof.
  induction m as [|[k' v'] m IH]; simpl; [discriminate|].
  destruct (String.eqb k k') eqn:E; simpl.
  - intros [= ->]. exists [], (JsMap.values m). split; reflexivity.
  - intros H. destruct (IH H) as (l1 & l2 & H1 & H2).
    exists (v' :: l1), l2. simpl. rewrite H1, H2. split; reflexivity.
Qed.

End Facts.

Create HintDb jsmap discriminated.

#[export] Hint Resolve has_set wf_set keys_set_present : jsmap.

Create Rewrite HintDb jsmap_get.

#[export] Hint Rewrite @get_set_eq : jsmap_get.

End JsMapFacts.

(* ------------------------------------------------------------------ *)
(** ** The registry *)

Module ServerClaims.

Import Server JsMapFacts ServerScenario.

(** The grace time added to the interval makes one and a half
    intervals. *)
Lemma isServiceAlive_spec (now : Z) (service : ServiceInstance) :
  isServiceAlive now service = livenessPredicate now service.
Proof.
  unfold isServiceAlive, livenessPredicate.
  apply Qleb_comp; [reflexivity|]. ring.
Qed.

(** In integers: twice the elapsed time is at most three intervals. *)
Lemma livenessPredicate_Z (now : Z) (service : ServiceInstance) :
  livenessPredicate now service = true <->
  2 * (now - lastHeartbeat service) <= 3 * (heartbeatInterval service * 1000).
Proof.
  unfold livenessPredicate, Qle_bool. rewrite Z.leb_le.
  cbn [Qnum Qden Qmult inject_Z Pos.mul]. lia.
Qed.

Lemma discover_present (now : Z) (name : string) (services : ServicesMap)
  (group : ServiceGroup) :
  JsMap.get name services = Some group ->
  discover now name services =
  Json {| services := filter (isServiceAlive now) (JsMap.values group) |}.
Proof.
  intros H. unfold discover, JsMap.has, getOrCreateGroup. rewrite H.
  reflexivity.
Qed.

Lemma getOrCreateGroup_wf (name : string) (services : ServicesMap) :
  storeWf services -> JsMap.wf (getOrCreateGroup name services).
Proof.
  intros [_ Hgroups]. unfold getOrCreateGroup.
  destruct (JsMap.get name services) as [group|] eqn:E.
  - eapply Hgroups. exact E.
  - constructor.
Qed.

Lemma storeWf_set (name : string) (group : ServiceGroup)
  (services : ServicesMap) :
  storeWf services -> JsMap.wf group ->
  storeWf (JsMap.set name group services).
Proof.
  intros [Hs Hgroups] Hg. split; [auto with jsmap|].
  intros other group' Hget.
  destruct (String.eqb name other) eqn:E.
  - apply String.eqb_eq in E. subst other.
    autorewrite with jsmap_get in Hget. congruence.
  - apply String.eqb_neq in E. rewrite get_set_neq in Hget by exact E.
    eapply Hgroups. exact Hget.
Qed.

(** Both writing handlers keep the store a map of maps; the empty store
    is one. *)
Lemma handlers_keep_storeWf (now : Z) (req : Req.t) (services : ServicesMap) :
  storeWf services ->
  storeWf (fst (register now req services)) /\
  storeWf (fst (heartbeat now req services)).
Proof.
  intros Hwf. pose proof (getOrCreateGroup_wf) as Hg.
  unfold register, heartbeat.
  destruct (requiredFields (Req.body req)) as [[name port]|]; simpl;
    [|split; exact Hwf].
  split; apply storeWf_set; auto with jsmap.
Qed.


Lemma length_filter_middle {A : Type} (f : A -> bool) (l1 l2 : list A)
  (x y : A) :
  f x = f y ->
  List.length (filter f (l1 ++ x :: l2)) =
  List.length (filter f (l1 ++ y :: l2)).
Proof.
  intros Hxy. rewrite !filter_app, !length_app. simpl. rewrite Hxy.
  destruct (f y); reflexivity.
Qed.



(** C10.  A heartbeat for an instance that is in the store answers with
    the interval the store holds for it, whatever interval the request
    carries, and changes the store in one place: the [lastHeartbeat] of
    that instance.  Its other six fields, the other instances of the
    group, the other groups and the order of both maps are as before. *)
Theorem heartbeat_updates_lastHeartbeat_only :
  forall (services : ServicesMap) (req : Req.t) (now : Z)
         (name : string) (port : Z) (group : ServiceGroup)
         (service : ServiceInstance),
    requiredFields (Req.body req) = Some (name, port) ->
    JsMap.get name services = Some group ->
    JsMap.get (createServiceId name (getClientIP req) port) group
      = Some service ->
    let id := createServiceId name (getClientIP req) port in
    let services' := fst (heartbeat now req services) in
    snd (heartbeat now req services) =
      Json {| ok := true; hr_lastHeartbeat := now;
              nextHeartbeatIn := heartbeatInterval service |} /\
    exists group' service',
      JsMap.get name services' = Some group' /\
      JsMap.get id group' = Some service' /\
      (Server.id service' = Server.id service /\
       Server.name service' = Server.name service /\
       Server.ip service' = Server.ip service /\
       Server.port service' = Server.port service /\
       heartbeatInterval service' = heartbeatInterval service /\
       registeredAt service' = registeredAt service /\
       lastHeartbeat service' = now) /\
      (forall other, other <> id ->
                     JsMap.get other group' = JsMap.get other group) /\
      JsMap.keys group' = JsMap.keys group /\
      (forall other, other <> name ->
                     JsMap.get other services' = JsMap.get other services) /\
      JsMap.keys services' = JsMap.keys services.
Proof.
  intros services req now name port group service Hreq Hgroup Hservice id
    services'.
  assert (Hb : heartbeat now req services =
               (JsMap.set name
                  (JsMap.set id (withLastHeartbeat now service) group)
                  services,
                Json {| ok := true; hr_lastHeartbeat := now;
                        nextHeartbeatIn := heartbeatInterval service |})).
  { unfold heartbeat, getOrCreateGroup. rewrite Hreq. cbv zeta.
    rewrite Hgroup, Hservice. reflexivity. }
  subst services'. rewrite Hb. simpl. split; [reflexivity|].
  exists (JsMap.set id (withLastHeartbeat now service) group),
    (withLastHeartbeat now service).
  split; [apply get_set_eq|]. split; [apply get_set_eq|].
  split; [repeat split|]. split; [|split; [|split]].
  - intros other Hne. apply get_set_neq. congruence.
  - apply keys_set_present. unfold JsMap.has. fold id in Hservice.
    rewrite Hservice. reflexivity.
  - intros other Hne. apply get_set_neq. congruence.
  - apply keys_set_present. unfold JsMap.has. rewrite Hgroup. reflexivity.
Qed.

End ServerClaims.

Module ServerWitnesses.

Import Server JsMapFacts ServerScenario ServerClaims.



Lemma heartbeat_updates_lastHeartbeat_only_witness :
  (requiredFields (Req.body (request 45)) = Some ("svc-a", 9000) /\
   JsMap.get "svc-a" registeredOnce = Some firstGroup /\
   JsMap.get (createServiceId "svc-a" (getClientIP (request 45)) 9000)
     firstGroup = Some firstRegistration) /\
  snd (heartbeat 700 (request 45) registeredOnce) =
    Json {| ok := true; hr_lastHeartbeat := 700; nextHeartbeatIn := 1 |}.
Proof.
  split; [split; [reflexivity|split; reflexivity]|].
  apply (proj1 (heartbeat_updates_lastHeartbeat_only registeredOnce
                  (request 45) 700 "svc-a" 9000 firstGroup firstRegistration
                  eq_refl eq_refl eq_refl)).
Defined.

End ServerWitnesses.

(* ------------------------------------------------------------------ *)
(** ** The discovery clients *)

Module ClientFacts.

Import ClientCommon ClientOps.

Lemma fold_left_min (l : list Z) : forall x,
  (fold_left Z.min l x = x \/ In (fold_left Z.min l x) l) /\
  fold_left Z.min l x <= x /\
  (forall y, In y l -> fold_left Z.min l x <= y).
Proof.
  induction l as [|a l IH]; intros x; simpl.
  - split; [left; reflexivity|split; [lia|intros y []]].
  - destruct (IH (Z.min x a)) as (Hin & Hle & Hall).
    split; [|split].
    + destruct Hin as [Heq|Hin]; [|right; right; exact Hin].
      rewrite Heq. destruct (Z.min_spec x a) as [[_ ->]|[_ ->]]; auto.
    + lia.
    + intros y [<-|Hy]; [lia|apply Hall; exact Hy].
Qed.

Lemma Math_min_minimum (l : list Z) (m : Z) :
  Math_min l = Some m -> minimumOf m l.
Proof.
  destruct l as [|x rest]; simpl; [discriminate|]. intros [= <-].
  destruct (fold_left_min rest x) as (Hin & Hle & Hall). split.
  - destruct Hin as [->|Hin]; [left; reflexivity|right; exact Hin].
  - intros y [<-|Hy]; [exact Hle|apply Hall; exact Hy].
Qed.

Lemma Math_min_some (x : Z) (rest : list Z) :
  exists m, Math_min (x :: rest) = Some m.
Proof. eexists. reflexivity. Qed.

(** The index drawn is within the array. *)
Lemma randomIndex_in_range (r : UnitInterval) (n : nat) :
  (0 < n)%nat ->
  0 <= Qfloor (value r * inject_Z (Z.of_nat n)) < Z.of_nat n.
Proof.
  intros Hn. destruct r as [v Hv]. cbn [value].
  apply andb_true_iff in Hv. destruct Hv as [H0 H1].
  apply Qle_bool_iff in H0.
  assert (H1' : (v < 1)%Q).
  { apply Qnot_le_lt. intros H. apply Qle_bool_iff in H. rewrite H in H1.
    discriminate. }
  assert (Hpos : (0 < inject_Z (Z.of_nat n))%Q).
  { change 0%Q with (inject_Z 0). rewrite <- Zlt_Qlt. lia. }
  split.
  - rewrite <- (Qfloor_Z 0). apply Qfloor_resp_le.
    apply Qmult_le_0_compat; [exact H0|apply Qlt_le_weak; exact Hpos].
  - rewrite Zlt_Qlt.
    apply Qle_lt_trans with (y := (v * inject_Z (Z.of_nat n))%Q);
      [apply Qfloor_le|].
    rewrite <- (Qmult_1_l (inject_Z (Z.of_nat n))) at 2.
    apply Qmult_lt_compat_r; assumption.
Qed.

(** Of a list that is not empty, the selection is the URL of one of its
    instances. *)
Lemma select_returns_url (r : UnitInterval) (services : list ServiceResponse) :
  services <> [] ->
  exists url, _selectRandomService r services = Returned url /\
              urlOfOneOf services url.
Proof.
  intros Hne. unfold _selectRandomService.
  destruct services as [|s rest] eqn:E; [congruence|]. rewrite <- E.
  assert (Hlen : (0 < List.length services)%nat) by (subst; simpl; lia).
  pose proof (randomIndex_in_range r _ Hlen) as [Hlo Hhi].
  destruct (nth_error services
              (Z.to_nat (Qfloor (value r
                                 * inject_Z (Z.of_nat (List.length services))))))
    as [selected|] eqn:Hnth.
  - eexists. split; [reflexivity|]. exists selected. split; [|reflexivity].
    eapply nth_error_In. exact Hnth.
  - apply nth_error_None in Hnth. lia.
Qed.

Lemma nonEmpty_cached (serviceName : string) (cache : ServiceCache)
  (entry : ServiceCacheEntry) :
  JsMap.get serviceName cache = Some entry ->
  services entry <> [] ->
  nonEmpty (_getCachedServices serviceName cache) = true /\
  orEmpty (_getCachedServices serviceName cache) = services entry.
Proof.
  intros Hget Hne. unfold _getCachedServices. rewrite Hget. simpl.
  destruct (services entry); [congruence|split; reflexivity].
Qed.

(** The entry [_updateCache] writes: [expiresAt] counts from the second
    clock reading of the object literal. *)
Lemma updateCache_expiry (options : ServiceDiscoveryClientOptions)
  (nowCachedAt nowExpiresAt : Z) (serviceName : string)
  (fresh : list ServiceResponse) (cache : ServiceCache) (m : Z) :
  Math_min (map Server.heartbeatInterval fresh) = Some m ->
  JsMap.get serviceName
    (_updateCache options nowCachedAt nowExpiresAt serviceName fresh cache)
  = Some {| services := fresh; cachedAt := nowCachedAt;
            expiresAt := nowExpiresAt + m * 1000 * cacheMultiplier options |}.
Proof.
  intros Hm. unfold _updateCache. rewrite Hm. apply JsMapFacts.get_set_eq.
Qed.

(** The entry [_updateCache] writes, when the two clock readings of its
    object literal agree. *)
Lemma updateCache_entry (options : ServiceDiscoveryClientOptions) (now : Z)
  (serviceName : string) (fresh : list ServiceResponse) (cache : ServiceCache) :
  fresh <> [] ->
  exists entry,
    JsMap.get serviceName (_updateCache options now now serviceName fresh cache)
      = Some entry /\
    services entry = fresh /\ cachedAt entry = now /\
    wellTimed options entry.
Proof.
  intros Hne. unfold _updateCache.
  destruct (Math_min (map Server.heartbeatInterval fresh)) as [m|] eqn:Hm.
  - eexists. split; [apply JsMapFacts.get_set_eq|].
    split; [reflexivity|split; [reflexivity|]].
    exists m. split; [apply Math_min_minimum; exact Hm|]. simpl. ring.
  - destruct fresh; [congruence|discriminate].
Qed.

Lemma updateCache_allWellTimed (options : ServiceDiscoveryClientOptions)
  (now : Z) (serviceName : string) (fresh : list ServiceResponse)
  (cache : ServiceCache) :
  allWellTimed options cache ->
  allWellTimed options (_updateCache options now now serviceName fresh cache).
Proof.
  intros Hall. destruct fresh as [|s rest]; [exact Hall|].
  destruct (updateCache_entry options now serviceName (s :: rest) cache)
    as (entry & Hget & _ & _ & Hwt); [discriminate|].
  intros other entry' Hget'.
  destruct (String.eqb serviceName other) eqn:E.
  - apply String.eqb_eq in E. subst other. congruence.
  - apply String.eqb_neq in E. unfold _updateCache in Hget'.
    destruct (Math_min _); [|eapply Hall; exact Hget'].
    rewrite JsMapFacts.get_set_neq in Hget' by exact E.
    eapply Hall. exact Hget'.
Qed.

End ClientFacts.

Module ClientClaims.

Import ClientCommon ClientOps ClientFacts ClientScenario.

Lemma staleCacheOrThrow_cache (w : World) (serviceName : string)
  (cachedServices : option (list ServiceResponse)) (cache : ServiceCache)
  (sent : list HttpRequest) :
  cacheAfter (staleCacheOrThrow w serviceName cachedServices cache sent)
  = cache.
Proof.
  unfold staleCacheOrThrow. destruct (nonEmpty cachedServices); reflexivity.
Qed.

(** The TypeScript client when the fetch gives at least one instance. *)
Lemma getServiceUrl_fresh (options : ServiceDiscoveryClientOptions)
  (w : World) (serviceName : string) (cache : ServiceCache)
  (fresh : list ServiceResponse) :
  nonEmpty (_getCachedServices serviceName cache)
    && _isCacheValid (nowAtValidityCheck w) serviceName cache = false ->
  _fetchServices (fetched w) = Returned fresh ->
  fresh <> [] ->
  exists url,
    urlOfOneOf fresh url /\
    Client.getServiceUrl options w serviceName cache =
    {| cacheAfter :=
         _updateCache options (nowAtCachedAt w) (nowAtExpiresAt w)
           serviceName fresh cache;
       result := Returned url;
       requests := [GET_services serviceName] |}.
Proof.
  intros Hmiss Hfetch Hne. unfold Client.getServiceUrl.
  rewrite Hmiss, Hfetch.
  destruct (select_returns_url (random w) fresh Hne) as (url & Hsel & Hurl).
  exists url. split; [exact Hurl|].
  destruct fresh as [|s rest]; [congruence|]. rewrite Hsel. reflexivity.
Qed.



(** The TypeScript client serves the cached instances, expired or not,
    when the fetch fails or returns none. *)
Lemma typescript_serves_stale_cache :
  forall options w serviceName cache entry,
    JsMap.get serviceName cache = Some entry ->
    services entry <> [] ->
    (forall fresh, _fetchServices (fetched w) = Returned fresh -> fresh = []) ->
    exists url,
      result (Client.getServiceUrl options w serviceName cache) = Returned url
      /\ urlOfOneOf (services entry) url.
Proof.
  intros options w serviceName cache entry Hget Hne Hfetch.
  destruct (nonEmpty_cached serviceName cache entry Hget Hne) as [Hn Ho].
  destruct (select_returns_url (random w) (services entry) Hne)
    as (url & Hsel & Hurl).
  exists url. split; [|exact Hurl].
  unfold Client.getServiceUrl. rewrite Hn. simpl.
  destruct (_isCacheValid (nowAtValidityCheck w) serviceName cache);
    simpl; [rewrite Ho; exact Hsel|].
  destruct (_fetchServices (fetched w)) as [[|s rest]|err] eqn:E.
  - unfold staleCacheOrThrow. rewrite Hn, Ho. exact Hsel.
  - specialize (Hfetch _ eq_refl). discriminate.
  - unfold staleCacheOrThrow. rewrite Hn, Ho. exact Hsel.
Qed.

(** The TypeScript client throws only the no-instances error, and only
    when the cache holds no instance of the name and the fetch failed or
    returned none. *)
Lemma typescript_throws_only_without_cache :
  forall options w serviceName cache err,
    result (Client.getServiceUrl options w serviceName cache) = Thrown err ->
    err = noInstances serviceName /\
    nonEmpty (_getCachedServices serviceName cache) = false /\
    (forall fresh, _fetchServices (fetched w) = Returned fresh -> fresh = []).
Proof.
  intros options w serviceName cache err. unfold Client.getServiceUrl.
  cbv zeta.
  destruct (nonEmpty (_getCachedServices serviceName cache)) eqn:Hn.
  - assert (Hsel : exists u,
               _selectRandomService (random w)
                 (orEmpty (_getCachedServices serviceName cache))
               = Returned u).
    { destruct (_getCachedServices serviceName cache) as [[|c cs]|];
        try discriminate.
      destruct (select_returns_url (random w) (c :: cs)) as (u & Hu & _);
        [discriminate|].
      exists u. exact Hu. }
    destruct Hsel as (u & Hu).
    destruct (_isCacheValid (nowAtValidityCheck w) serviceName cache);
      cbn [andb result]; [rewrite Hu; discriminate|].
    destruct (_fetchServices (fetched w)) as [[|s rest]|e].
    + unfold staleCacheOrThrow. rewrite Hn. cbn [result]. rewrite Hu.
      discriminate.
    + destruct (select_returns_url (random w) (s :: rest))
        as (u' & Hu' & _); [discriminate|].
      rewrite Hu'. discriminate.
    + unfold staleCacheOrThrow. rewrite Hn. cbn [result]. rewrite Hu.
      discriminate.
  - cbn [andb].
    destruct (_fetchServices (fetched w)) as [[|s rest]|e].
    + unfold staleCacheOrThrow. rewrite Hn. cbn [result].
      intros [= <-]. repeat split. intros fresh [= <-]. reflexivity.
    + destruct (select_returns_url (random w) (s :: rest))
        as (u' & Hu' & _); [discriminate|].
      rewrite Hu'. discriminate.
    + unfold staleCacheOrThrow. rewrite Hn. cbn [result].
      intros [= <-]. repeat split. intros fresh H. discriminate.
Qed.

(** The JavaScript client: when the fetch is made and fails, the call
    throws the error of the request, whatever the cache holds. *)
Lemma javascript_fetch_error_propagates :
  forall options w serviceName cache err,
    nonEmpty (_getCachedServices serviceName cache)
      && _isCacheValid (nowAtValidityCheck w) serviceName cache = false ->
    fetched w = Thrown err ->
    ClientJs.getServiceUrl options w serviceName cache =
    {| cacheAfter := cache; result := Thrown err;
       requests := [GET_services serviceName] |}.
Proof.
  intros options w serviceName cache err Hmiss Hfetch.
  unfold ClientJs.getServiceUrl. rewrite Hmiss, Hfetch. reflexivity.
Qed.

(** C4, on the scenario, for the JavaScript client.  The cache holds one
    instance of ["order-service"], expired at 60 s; at 61 s the registry
    cannot be reached.  The JavaScript client throws the error of the
    request; the TypeScript client returns the URL of the cached
    instance.  With an empty cache the JavaScript client throws the error
    of the request as well, the TypeScript client the no-instances
    error. *)
Theorem javascript_client_throws_fetch_error :
  _getCachedServices "order-service" expiredCache = Some [orderService] /\
  _isCacheValid (nowAtValidityCheck registryDown) "order-service" expiredCache
    = false /\
  result (ClientJs.getServiceUrl defaultOptions registryDown "order-service"
            expiredCache) = Thrown "connect ECONNREFUSED" /\
  result (Client.getServiceUrl defaultOptions registryDown "order-service"
            expiredCache) = Returned "http://10.0.0.2:5000" /\
  result (ClientJs.getServiceUrl defaultOptions registryDown "order-service"
            JsMap.empty) = Thrown "connect ECONNREFUSED" /\
  result (Client.getServiceUrl defaultOptions registryDown "order-service"
            JsMap.empty)
    = Thrown "No instances available for service: order-service".
Proof.
  repeat split; vm_compute; reflexivity.
Qed.

(** The TypeScript client after a registration that the registry
    confirms: the register request and one heartbeat have been sent, the
    timer runs with the confirmed interval, in milliseconds, and the
    heartbeat sent at once and at every firing of the timer carries the
    confirmed interval. *)
Lemma typescript_heartbeats_carry_confirmed_interval :
  forall options serviceName servicePort data st,
    let beat :=
      POST_heartbeat
        {| ServiceRequest.name := Some serviceName;
           ServiceRequest.port := Some servicePort;
           ServiceRequest.heartbeatInterval :=
             Some (Server.rr_heartbeatInterval data) |} in
    let '(st', answer, sent) :=
      Client.register options serviceName servicePort (Returned data) st in
    answer = Returned data /\
    sent = [POST_register (registerPayload options serviceName servicePort);
            beat] /\
    heartbeatTimer st' =
      Some {| delay := Server.rr_heartbeatInterval data * 1000;
              running := true |} /\
    Client.timerFires st' = [beat].
Proof.
  intros options serviceName servicePort data st beat.
  unfold Client.register, Client._startHeartbeat, Client.timerFires. simpl.
  repeat split.
Qed.

(** The JavaScript client sends, at once and at every firing of the
    timer, a heartbeat that carries its own default interval. *)
Lemma javascript_heartbeats_carry_default_interval :
  forall options serviceName servicePort data st,
    let beat :=
      POST_heartbeat
        {| ServiceRequest.name := Some serviceName;
           ServiceRequest.port := Some servicePort;
           ServiceRequest.heartbeatInterval :=
             Some (defaultHeartbeatInterval options) |} in
    let '(st', answer, sent) :=
      ClientJs.register options serviceName servicePort (Returned data) st in
    answer = Returned data /\
    sent = [POST_register (registerPayload options serviceName servicePort);
            beat] /\
    heartbeatTimer st' =
      Some {| delay := Server.rr_heartbeatInterval data * 1000;
              running := true |} /\
    ClientJs.timerFires options st' = [beat].
Proof.
  intros options serviceName servicePort data st beat.
  unfold ClientJs.register, ClientJs._startHeartbeat, ClientJs.timerFires.
  simpl. repeat split.
Qed.

(** C5, on the scenario, for the JavaScript client.  The client asks for
    its default interval, 30 s, and the registry confirms 10 s.  The
    timer is set to 10 s and a heartbeat is sent at once, but this
    heartbeat, and the one of every firing of the timer, carries 30 s;
    those of the TypeScript client carry 10 s. *)
Theorem javascript_heartbeat_carries_requested_interval :
  let '(st, answer, sent) :=
    ClientJs.register defaultOptions "user-service" 4000
      (Returned confirmation) initialState in
  let '(st', _, sent') :=
    Client.register defaultOptions "user-service" 4000
      (Returned confirmation) initialState in
  let beat (interval : Z) :=
    POST_heartbeat
      {| ServiceRequest.name := Some "user-service";
         ServiceRequest.port := Some 4000;
         ServiceRequest.heartbeatInterval := Some interval |} in
  answer = Returned confirmation /\
  heartbeatTimer st = Some {| delay := 10000; running := true |} /\
  sent = [POST_register (registerPayload defaultOptions "user-service" 4000);
          beat 30] /\
  ClientJs.timerFires defaultOptions st = [beat 30] /\
  sent' = [POST_register (registerPayload defaultOptions "user-service" 4000);
           beat 10] /\
  Client.timerFires st' = [beat 10].
Proof.
  vm_compute. repeat split.
Qed.


End ClientClaims.

(* ------------------------------------------------------------------ *)
(** ** More on maps: deletion, membership *)

Module JsMapDelete.

Import JsMapFacts.

Section Facts.

Context {V : Type}.

Implicit Types (k : string) (v : V) (m : list (string * V)).

Lemma get_None_keys k m : JsMap.get k m = None <-> ~ In k (JsMap.keys m).
Proof.
  rewrite <- has_In_keys. unfold JsMap.has.
  destruct (JsMap.get k m); split; try congruence; intros H; exfalso;
    apply H; reflexivity.
Qed.

Lemma get_In k v m : JsMap.get k m = Some v -> In (k, v) m.
Proof.
  induction m as [|[k' v'] m IH]; simpl; [discriminate|].
  destruct (String.eqb k k') eqn:E.
  - apply String.eqb_eq in E. intros [= ->]. left. congruence.
  - intros H. right. apply IH. exact H.
Qed.

Lemma In_keys k v m : In (k, v) m -> In k (JsMap.keys m).
Proof. intros H. apply (in_map fst) in H. exact H. Qed.

Lemma In_get k v m : JsMap.wf m -> In (k, v) m -> JsMap.get k m = Some v.
Proof.
  unfold JsMap.wf. induction m as [|[k' v'] m IH]; simpl; [intros _ []|].
  intros Hwf [H|H]; inversion Hwf as [|x l Hnotin Hnd]; subst.
  - inversion H; subst. rewrite String.eqb_refl. reflexivity.
  - destruct (String.eqb k k') eqn:E; [|apply IH; assumption].
    apply String.eqb_eq in E. subst k'. exfalso. apply Hnotin.
    eapply In_keys. exact H.
Qed.

Lemma In_set k v k' v' m :
  In (k', v') (JsMap.set k v m) -> (k', v') = (k, v) \/ In (k', v') m.
Proof.
  induction m as [|[k0 v0] m IH]; simpl.
  - intros [H|[]]. left. congruence.
  - destruct (String.eqb k k0); simpl.
    + intros [H|H]; [left; congruence|right; right; exact H].
    + intros [H|H]; [right; left; exact H|].
      destruct (IH H) as [H'|H']; [left; exact H'|right; right; exact H'].
Qed.

Lemma set_nonempty k v m : JsMap.set k v m <> [].
Proof.
  destruct m as [|[k' v'] m]; simpl; [discriminate|].
  destruct (String.eqb k k'); discriminate.
Qed.

(** Writing back what a key holds changes nothing. *)
Lemma set_same k v m : JsMap.get k m = Some v -> JsMap.set k v m = m.
Proof.
  induction m as [|[k' v'] m IH]; simpl; [discriminate|].
  destruct (String.eqb k k') eqn:E.
  - apply String.eqb_eq in E. intros [= ->]. congruence.
  - intros H. rewrite (IH H). reflexivity.
Qed.

Lemma get_set_cases k v k' v' m :
  JsMap.get k' (JsMap.set k v m) = Some v' ->
  (k' = k /\ v' = v) \/ (k' <> k /\ JsMap.get k' m = Some v').
Proof.
  destruct (String.eqb k k') eqn:E.
  - apply String.eqb_eq in E. subst k'. rewrite get_set_eq.
    intros [= <-]. left. split; reflexivity.
  - apply String.eqb_neq in E. rewrite get_set_neq by exact E.
    intros H. right. split; [congruence|exact H].
Qed.

Lemma delete_absent k m : JsMap.has k m = false -> JsMap.delete k m = m.
Proof.
  unfold JsMap.has. induction m as [|[k' v'] m IH]; simpl; [reflexivity|].
  destruct (String.eqb k k'); [discriminate|].
  intros H. rewrite (IH H). reflexivity.
Qed.

Lemma In_delete k k' v' m :
  In (k', v') (JsMap.delete k m) -> In (k', v') m.
Proof.
  induction m as [|[k0 v0] m IH]; simpl; [intros []|].
  destruct (String.eqb k k0); simpl.
  - intros H. right. exact H.
  - intros [H|H]; [left; exact H|right; apply IH; exact H].
Qed.

Lemma keys_delete k x m :
  In x (JsMap.keys (JsMap.delete k m)) -> In x (JsMap.keys m).
Proof.
  unfold JsMap.keys. intros H. apply in_map_iff in H.
  destruct H as ([k' v'] & <- & H). apply In_delete in H.
  apply (in_map fst) in H. exact H.
Qed.

Lemma wf_delete k m : JsMap.wf m -> JsMap.wf (JsMap.delete k m).
Proof.
  unfold JsMap.wf. induction m as [|[k' v'] m IH]; simpl; [auto|].
  intros Hwf. inversion Hwf as [|x l Hnotin Hnd]; subst.
  destruct (String.eqb k k'); [exact Hnd|].
  simpl. constructor; [|apply IH; exact Hnd].
  intros H. apply Hnotin. eapply keys_delete. exact H.
Qed.

Lemma get_delete_neq k k' m :
  k <> k' -> JsMap.get k' (JsMap.delete k m) = JsMap.get k' m.
Proof.
  intros Hne. induction m as [|[k0 v0] m IH]; simpl; [reflexivity|].
  destruct (String.eqb k k0) eqn:E; simpl.
  - apply String.eqb_eq in E. subst k0.
    destruct (String.eqb k' k) eqn:E'; [|reflexivity].
    apply String.eqb_eq in E'. congruence.
  - rewrite IH. reflexivity.
Qed.

(** Under distinct keys a deleted key is gone. *)
Lemma get_delete_eq k m :
  JsMap.wf m -> JsMap.get k (JsMap.delete k m) = None.
Proof.
  unfold JsMap.wf. induction m as [|[k' v'] m IH]; simpl; [reflexivity|].
  intros Hwf. inversion Hwf as [|x l Hnotin Hnd]; subst.
  destruct (String.eqb k k') eqn:E; simpl.
  - apply String.eqb_eq in E. subst k'. apply get_None_keys. exact Hnotin.
  - rewrite E. apply IH. exact Hnd.
Qed.

Lemma delete_app_middle k v (pre post : list (string * V)) :
  ~ In k (JsMap.keys pre) ->
  JsMap.delete k (pre ++ (k, v) :: post) = pre ++ post.
Proof.
  induction pre as [|[k' v'] pre IH]; simpl; intros Hnotin.
  - rewrite String.eqb_refl. reflexivity.
  - destruct (String.eqb k k') eqn:E.
    + apply String.eqb_eq in E. exfalso. apply Hnotin. left. congruence.
    + rewrite IH; [reflexivity|]. intros H. apply Hnotin. right. exact H.
Qed.

Lemma set_app_middle k v v' (pre post : list (string * V)) :
  ~ In k (JsMap.keys pre) ->
  JsMap.set k v' (pre ++ (k, v) :: post) = pre ++ (k, v') :: post.
Proof.
  induction pre as [|[k0 v0] pre IH]; simpl; intros Hnotin.
  - rewrite String.eqb_refl. reflexivity.
  - destruct (String.eqb k k0) eqn:E.
    + apply String.eqb_eq in E. exfalso. apply Hnotin. left. congruence.
    + rewrite IH; [reflexivity|]. intros H. apply Hnotin. right. exact H.
Qed.

End Facts.

End JsMapDelete.

(* ------------------------------------------------------------------ *)
(** ** Plain objects *)

Module JsObjectFacts.

Import JsMapFacts JsMapDelete.

Lemma arrayIndex_canonical (key : string) (index : N) :
  JsObject.arrayIndex key = Some index ->
  key = JsObject.indexToString index /\ (index < 4294967295)%N.
Proof.
  unfold JsObject.arrayIndex.
  destruct (NilEmpty.uint_of_string key) as [digits|]; [|discriminate].
  cbv zeta.
  destruct (String.eqb (JsObject.indexToString (N.of_uint digits)) key)
    eqn:E; [|discriminate].
  destruct (N.ltb_spec (N.of_uint digits) 4294967295) as [Hlt|Hge];
    [|discriminate].
  cbn [andb]. intros [= <-]. apply String.eqb_eq in E.
  split; [symmetry; exact E|exact Hlt].
Qed.

Lemma arrayIndex_indexToString (index : N) :
  (index < 4294967295)%N ->
  JsObject.arrayIndex (JsObject.indexToString index) = Some index.
Proof.
  intros Hlt. unfold JsObject.arrayIndex.
  unfold JsObject.indexToString at 1.
  rewrite NilEmpty.usu. cbv zeta. rewrite DecimalN.Unsigned.of_to.
  rewrite String.eqb_refl.
  apply N.ltb_lt in Hlt. rewrite Hlt. reflexivity.
Qed.

Section Facts.

Context {V : Type}.

Implicit Types (i j : N) (k : string) (v : V) (l : list (N * V))
  (o : JsObject.t V).

Lemma getElement_setElement_eq i v l :
  JsObject.getElement i (JsObject.setElement i v l) = Some v.
Proof.
  induction l as [|[j w] l IH]; simpl.
  - rewrite N.eqb_refl. reflexivity.
  - destruct (N.ltb_spec i j); simpl; [rewrite N.eqb_refl; reflexivity|].
    destruct (N.eqb_spec i j); simpl.
    + rewrite N.eqb_refl. reflexivity.
    + destruct (N.eqb_spec i j); [contradiction|exact IH].
Qed.

Lemma getElement_setElement_neq i j v l :
  i <> j ->
  JsObject.getElement j (JsObject.setElement i v l) = JsObject.getElement j l.
Proof.
  intros Hne. induction l as [|[j' w] l IH]; simpl.
  - destruct (N.eqb_spec j i); [congruence|reflexivity].
  - destruct (N.ltb_spec i j'); simpl.
    + destruct (N.eqb_spec j i); [congruence|reflexivity].
    + destruct (N.eqb_spec i j'); simpl.
      * subst j'. destruct (N.eqb_spec j i); [congruence|reflexivity].
      * rewrite IH. reflexivity.
Qed.

Lemma In_setElement i v (e : N * V) l :
  In e (JsObject.setElement i v l) -> e = (i, v) \/ In e l.
Proof.
  induction l as [|[j w] l IH]; simpl.
  - intros [H|[]]. left. congruence.
  - destruct (N.ltb_spec i j) as [Hlt|Hge]; simpl.
    + intros [H|H]; [left; congruence|right; exact H].
    + destruct (N.eqb_spec i j) as [Heq|Hne]; simpl.
      * intros [H|H]; [left; congruence|right; right; exact H].
      * intros [H|H]; [right; left; exact H|].
        destruct (IH H) as [H'|H']; [left; exact H'|right; right; exact H'].
Qed.

Lemma ascending_setElement i v l :
  JsObject.ascending (map fst l) ->
  JsObject.ascending (map fst (JsObject.setElement i v l)).
Proof.
  induction l as [|[j w] l IH]; simpl.
  - intros _. split; [constructor|exact I].
  - intros [Hlater Hasc]. destruct (N.ltb_spec i j) as [Hlt|Hge]; simpl.
    + split; [|split; assumption].
      constructor; [exact Hlt|].
      eapply Forall_impl; [|exact Hlater]. simpl. intros x Hx. lia.
    + destruct (N.eqb_spec i j) as [->|Hne]; simpl.
      * split; assumption.
      * split; [|apply IH; exact Hasc].
        apply Forall_forall. intros x Hx. apply in_map_iff in Hx.
        destruct Hx as (e & <- & He).
        destruct (In_setElement _ _ _ _ He) as [->|He']; [simpl; lia|].
        rewrite Forall_forall in Hlater. apply Hlater.
        apply in_map. exact He'.
Qed.

Lemma getElement_In i v l :
  JsObject.ascending (map fst l) ->
  (JsObject.getElement i l = Some v <-> In (i, v) l).
Proof.
  induction l as [|[j w] l IH]; simpl.
  - intros _. split; [discriminate|intros []].
  - intros [Hlater Hasc]. destruct (N.eqb_spec i j) as [->|Hne].
    + split.
      * intros [= ->]. left. reflexivity.
      * intros [H|H]; [congruence|].
        rewrite Forall_forall in Hlater.
        apply (in_map fst) in H. apply Hlater in H. simpl in H. lia.
    + rewrite (IH Hasc). split.
      * intros H. right. exact H.
      * intros [H|H]; [congruence|exact H].
Qed.

Lemma wf_empty : JsObject.wf (@JsObject.empty V).
Proof.
  repeat split; simpl; constructor.
Qed.

Lemma wf_assign k v o : JsObject.wf o -> JsObject.wf (JsObject.assign k v o).
Proof.
  intros (Hasc & Hbound & Hwf & Hnone). unfold JsObject.assign.
  destruct (String.eqb k "__proto__"); [repeat split; assumption|].
  destruct (JsObject.arrayIndex k) as [i|] eqn:E.
  - repeat split; simpl; try assumption.
    + apply ascending_setElement. exact Hasc.
    + apply Forall_forall. intros e He.
      destruct (In_setElement _ _ _ _ He) as [->|He'].
      * simpl. apply (arrayIndex_canonical _ _ E).
      * rewrite Forall_forall in Hbound. apply Hbound. exact He'.
  - repeat split; simpl; try assumption.
    + apply wf_set. exact Hwf.
    + apply Forall_forall. intros [k' v'] He.
      destruct (In_set _ _ _ _ _ He) as [H|He'].
      * inversion H; subst. exact E.
      * rewrite Forall_forall in Hnone. apply (Hnone _ He').
Qed.

(** After [object[key] = value] the object has [value] as its own
    property [key], unless the key is ["__proto__"]. *)
Lemma getOwn_assign_eq k v o :
  k <> "__proto__" -> JsObject.getOwn k (JsObject.assign k v o) = Some v.
Proof.
  intros Hne. unfold JsObject.assign, JsObject.getOwn.
  apply String.eqb_neq in Hne. rewrite Hne.
  destruct (JsObject.arrayIndex k) as [i|]; simpl.
  - apply getElement_setElement_eq.
  - apply get_set_eq.
Qed.

Lemma getOwn_assign_neq k k' v o :
  k <> k' -> JsObject.getOwn k' (JsObject.assign k v o) = JsObject.getOwn k' o.
Proof.
  intros Hne. unfold JsObject.assign, JsObject.getOwn.
  destruct (String.eqb k "__proto__"); [reflexivity|].
  destruct (JsObject.arrayIndex k) as [i|] eqn:E;
    destruct (JsObject.arrayIndex k') as [j|] eqn:E'; simpl;
    try reflexivity.
  - apply getElement_setElement_neq. intros ->.
    apply arrayIndex_canonical in E, E'. destruct E, E'. congruence.
  - apply get_set_neq. exact Hne.
Qed.

Lemma assign_proto v o : JsObject.assign "__proto__" v o = o.
Proof. reflexivity. Qed.

(** What [JSON.stringify] writes of an object is what its own properties
    hold. *)
Lemma In_entries_getOwn k v o :
  JsObject.wf o ->
  (In (k, v) (JsObject.entries o) <-> JsObject.getOwn k o = Some v).
Proof.
  intros (Hasc & Hbound & Hwf & Hnone).
  unfold JsObject.entries, JsObject.getOwn.
  rewrite in_app_iff, in_map_iff.
  rewrite Forall_forall in Hbound, Hnone.
  destruct (JsObject.arrayIndex k) as [i|] eqn:E.
  - rewrite (getElement_In _ _ _ Hasc). split.
    + intros [([j w] & Heq & Hin)|Hin].
      * simpl in Heq. inversion Heq; subst.
        pose proof (Hbound _ Hin) as Hj. simpl in Hj.
        rewrite (arrayIndex_indexToString _ Hj) in E.
        inversion E; subst. exact Hin.
      * pose proof (Hnone _ Hin) as H. simpl in H. congruence.
    + intros Hin. left. exists (i, v). split; [|exact Hin].
      simpl. f_equal. symmetry. apply (arrayIndex_canonical _ _ E).
  - split.
    + intros [([j w] & Heq & Hin)|Hin].
      * simpl in Heq. inversion Heq; subst.
        pose proof (Hbound _ Hin) as Hj. simpl in Hj.
        rewrite (arrayIndex_indexToString _ Hj) in E. discriminate.
      * apply In_get; assumption.
    + intros H. right. apply get_In. exact H.
Qed.

End Facts.

End JsObjectFacts.

(* ------------------------------------------------------------------ *)
(** ** The registry: removal, listing, the sweep *)

Module ServerOpsFacts.

Import Server ServerOps JsMapFacts JsMapDelete ServerClaims.

Lemma keys_app_cons {V : Type} (pre l : list (string * V)) (k : string)
  (v : V) :
  NoDup (JsMap.keys (pre ++ (k, v) :: l)) ->
  ~ In k (JsMap.keys pre) /\ NoDup (JsMap.keys (pre ++ l)).
Proof.
  unfold JsMap.keys. rewrite !map_app. simpl. intros H.
  pose proof (NoDup_remove_1 _ _ _ H) as H1.
  pose proof (NoDup_remove_2 _ _ _ H) as H2.
  split; [|exact H1]. intros Hin. apply H2. apply in_or_app. left. exact Hin.
Qed.

Lemma app_cons_assoc {A : Type} (pre l : list A) (x : A) :
  pre ++ x :: l = (pre ++ [x]) ++ l.
Proof. rewrite <- app_assoc. reflexivity. Qed.

Lemma keys_app_single {V : Type} (pre l : list (string * V)) (k : string)
  (v v' : V) :
  JsMap.keys ((pre ++ [(k, v')]) ++ l) = JsMap.keys (pre ++ (k, v) :: l).
Proof. unfold JsMap.keys. rewrite <- app_assoc, !map_app. reflexivity. Qed.

(** The inner loop, entry by entry, on a group with distinct keys. *)
Lemma sweepGroup_fold (now : Z) (l : ServiceGroup) :
  forall pre : ServiceGroup,
    NoDup (JsMap.keys (pre ++ l)) ->
    fold_left
      (fun group entry =>
         if isServiceAlive now (snd entry) then group
         else JsMap.delete (fst entry) group)
      l (pre ++ l)
    = pre ++ liveEntries now l.
Proof.
  induction l as [|[k v] l IH]; intros pre Hnd; [reflexivity|].
  destruct (keys_app_cons pre l k v Hnd) as [Hnotin Hnd'].
  unfold liveEntries. simpl.
  destruct (isServiceAlive now v) eqn:E.
  - rewrite (app_cons_assoc pre l). rewrite IH.
    + rewrite <- app_assoc. reflexivity.
    + rewrite (keys_app_single pre l k v v). exact Hnd.
  - rewrite delete_app_middle by exact Hnotin. apply IH. exact Hnd'.
Qed.

Lemma sweepGroup_liveEntries (now : Z) (group : ServiceGroup) :
  JsMap.wf group -> sweepGroup now group = liveEntries now group.
Proof. intros Hwf. apply (sweepGroup_fold now group []). exact Hwf. Qed.

Lemma cleanup_fold (now : Z) (l : ServicesMap) :
  forall pre : ServicesMap,
    NoDup (JsMap.keys (pre ++ l)) ->
    (forall name group, In (name, group) l -> JsMap.wf group) ->
    fold_left
      (fun store entry =>
         let serviceGroup := sweepGroup now (snd entry) in
         if Nat.eqb (JsMap.size serviceGroup) 0
         then JsMap.delete (fst entry) store
         else JsMap.set (fst entry) serviceGroup store)
      l (pre ++ l)
    = pre ++ liveGroups now l.
Proof.
  induction l as [|[name group] l IH]; intros pre Hnd Hwf; [reflexivity|].
  destruct (keys_app_cons pre l name group Hnd) as [Hnotin Hnd'].
  assert (Hwf' : forall n g, In (n, g) l -> JsMap.wf g).
  { intros n g H. eapply Hwf. right. exact H. }
  cbn [fold_left liveGroups fst snd].
  rewrite (sweepGroup_liveEntries now group) by (eapply Hwf; left; reflexivity).
  destruct (liveEntries now group) as [|entry entries] eqn:E.
  - cbn [JsMap.size List.length Nat.eqb].
    rewrite delete_app_middle by exact Hnotin. apply IH; assumption.
  - cbn [JsMap.size List.length Nat.eqb].
    rewrite set_app_middle by exact Hnotin.
    rewrite (app_cons_assoc pre l). rewrite IH.
    + rewrite <- app_assoc. reflexivity.
    + rewrite (keys_app_single pre l name group (entry :: entries)).
      exact Hnd.
    + exact Hwf'.
Qed.

(** The sweep, on a store that is a map of maps: the live entries of
    every group, without the groups that have none. *)
Lemma cleanup_liveGroups (now : Z) (services : ServicesMap) :
  storeWf services ->
  cleanupDeadServices now services = liveGroups now services.
Proof.
  intros [Hwf Hgroups]. apply (cleanup_fold now services []); [exact Hwf|].
  intros name group Hin. eapply Hgroups. apply In_get; eassumption.
Qed.

Lemma keys_liveGroups (now : Z) (services : ServicesMap) (x : string) :
  In x (JsMap.keys (liveGroups now services)) -> In x (JsMap.keys services).
Proof.
  induction services as [|[name group] rest IH]; simpl; [auto|].
  destruct (liveEntries now group); simpl.
  - intros H. right. apply IH. exact H.
  - intros [H|H]; [left; exact H|right; apply IH; exact H].
Qed.

Lemma wf_liveGroups (now : Z) (services : ServicesMap) :
  JsMap.wf services -> JsMap.wf (liveGroups now services).
Proof.
  unfold JsMap.wf. induction services as [|[name group] rest IH]; simpl;
    [auto|].
  intros Hwf. inversion Hwf as [|x l Hnotin Hnd]; subst.
  destruct (liveEntries now group); simpl; [apply IH; exact Hnd|].
  constructor; [|apply IH; exact Hnd].
  intros H. apply Hnotin. eapply keys_liveGroups. exact H.
Qed.

Lemma get_liveGroups (now : Z) (services : ServicesMap) (name : string) :
  JsMap.wf services ->
  JsMap.get name (liveGroups now services) =
  match JsMap.get name services with
  | Some group =>
      match liveEntries now group with
      | [] => None
      | entry :: entries => Some (entry :: entries)
      end
  | None => None
  end.
Proof.
  unfold JsMap.wf.
  induction services as [|[n group] rest IH]; simpl; [reflexivity|].
  intros Hwf. inversion Hwf as [|x l Hnotin Hnd]; subst.
  destruct (String.eqb name n) eqn:E.
  - apply String.eqb_eq in E. subst n.
    destruct (liveEntries now group) as [|entry entries]; simpl.
    + apply get_None_keys. intros H. apply Hnotin.
      eapply keys_liveGroups. exact H.
    + rewrite String.eqb_refl. reflexivity.
  - destruct (liveEntries now group); simpl; [|rewrite E];
      apply IH; exact Hnd.
Qed.

Lemma wf_liveEntries (now : Z) (group : ServiceGroup) :
  JsMap.wf group -> JsMap.wf (liveEntries now group).
Proof.
  unfold JsMap.wf, liveEntries.
  induction group as [|[k v] group IH]; simpl; [auto|].
  intros Hwf. inversion Hwf as [|x l Hnotin Hnd]; subst.
  destruct (isServiceAlive now v); simpl; [|apply IH; exact Hnd].
  constructor; [|apply IH; exact Hnd].
  intros H. apply Hnotin. unfold JsMap.keys in *.
  apply in_map_iff in H. destruct H as (kv & <- & H).
  apply filter_In in H. apply in_map. apply H.
Qed.

Lemma values_liveEntries (now : Z) (group : ServiceGroup) :
  JsMap.values (liveEntries now group)
  = filter (isServiceAlive now) (JsMap.values group).
Proof.
  unfold liveEntries, JsMap.values.
  induction group as [|[k v] group IH]; simpl; [reflexivity|].
  destruct (isServiceAlive now v); simpl; rewrite IH; reflexivity.
Qed.

Lemma liveEntries_idempotent (now : Z) (group : ServiceGroup) :
  liveEntries now (liveEntries now group) = liveEntries now group.
Proof.
  unfold liveEntries.
  induction group as [|[k v] group IH]; simpl; [reflexivity|].
  destruct (isServiceAlive now v) eqn:E; simpl; [rewrite E|];
    rewrite ?IH; reflexivity.
Qed.

Lemma liveGroups_idempotent (now : Z) (services : ServicesMap) :
  liveGroups now (liveGroups now services) = liveGroups now services.
Proof.
  induction services as [|[name group] rest IH]; simpl; [reflexivity|].
  destruct (liveEntries now group) as [|entry entries] eqn:E; [exact IH|].
  assert (H : liveEntries now (entry :: entries) = entry :: entries)
    by (rewrite <- E; apply liveEntries_idempotent).
  cbn [liveGroups]. rewrite H, IH. reflexivity.
Qed.

Lemma filter_filter_same {A : Type} (f : A -> bool) (l : list A) :
  filter f (filter f l) = filter f l.
Proof.
  induction l as [|x l IH]; simpl; [reflexivity|].
  destruct (f x) eqn:E; simpl; [rewrite E|]; rewrite ?IH; reflexivity.
Qed.

(** The store invariant, writer by writer. *)

Lemma storeInvariant_set (name : string) (group : ServiceGroup)
  (services : ServicesMap) :
  storeInvariant services ->
  JsMap.wf group -> group <> [] ->
  (forall key service, In (key, service) group ->
                       Server.id service = key /\ Server.name service = name) ->
  storeInvariant (JsMap.set name group services).
Proof.
  intros (Hwf & Hne & Hkey) Hg Hgne Hgkey. split; [|split].
  - apply storeWf_set; assumption.
  - intros n g Hget. destruct (get_set_cases _ _ _ _ _ Hget) as [[-> ->]|[_ H]];
      [exact Hgne|eapply Hne; exact H].
  - intros n g key service Hget Hin.
    destruct (get_set_cases _ _ _ _ _ Hget) as [[-> ->]|[_ H]];
      [apply Hgkey; exact Hin|eapply Hkey; eassumption].
Qed.

Lemma group_keyed (name : string) (services : ServicesMap) :
  storeInvariant services ->
  forall key service,
    In (key, service) (getOrCreateGroup name services) ->
    Server.id service = key /\ Server.name service = name.
Proof.
  intros (_ & _ & Hkey) key service. unfold getOrCreateGroup.
  destruct (JsMap.get name services) as [group|] eqn:E; [|intros []].
  intros Hin. eapply Hkey; eassumption.
Qed.

Lemma storeInvariant_empty : storeInvariant JsMap.empty.
Proof.
  split; [split; [constructor|discriminate]|split; discriminate].
Qed.

End ServerOpsFacts.

Module ServerExtras.

Import Server ServerOps JsMapFacts JsMapDelete JsObjectFacts ServerClaims
  ServerOpsFacts ServerScenario.

Lemma register_keeps_invariant (now : Z) (req : Req.t)
  (services : ServicesMap) :
  storeInvariant services -> storeInvariant (fst (register now req services)).
Proof.
  intros Hinv. unfold register.
  destruct (requiredFields (Req.body req)) as [[name port]|]; [|exact Hinv].
  cbn [fst]. apply storeInvariant_set; [exact Hinv| | |].
  - apply wf_set. apply getOrCreateGroup_wf. apply Hinv.
  - apply set_nonempty.
  - intros key service Hin. apply In_set in Hin.
    destruct Hin as [[= -> ->]|Hin]; [split; reflexivity|].
    eapply group_keyed; eassumption.
Qed.

Lemma heartbeat_keeps_invariant (now : Z) (req : Req.t)
  (services : ServicesMap) :
  storeInvariant services -> storeInvariant (fst (heartbeat now req services)).
Proof.
  intros Hinv. unfold heartbeat.
  destruct (requiredFields (Req.body req)) as [[name port]|]; [|exact Hinv].
  cbn [fst]. apply storeInvariant_set; [exact Hinv| | |].
  - apply wf_set. apply getOrCreateGroup_wf. apply Hinv.
  - apply set_nonempty.
  - intros key service Hin. apply In_set in Hin.
    destruct Hin as [[= -> ->]|Hin]; [|eapply group_keyed; eassumption].
    destruct (JsMap.get _ (getOrCreateGroup name services)) as [old|] eqn:E;
      [|split; reflexivity].
    apply get_In in E. apply (group_keyed name services Hinv) in E.
    exact E.
Qed.

Lemma get_delete_some {V : Type} (k k' : string) (v : V)
  (m : list (string * V)) :
  JsMap.wf m -> JsMap.get k' (JsMap.delete k m) = Some v ->
  k' <> k /\ JsMap.get k' m = Some v.
Proof.
  intros Hwf Hget. destruct (String.eqb k k') eqn:E.
  - apply String.eqb_eq in E. subst k'. rewrite get_delete_eq in Hget
      by exact Hwf. discriminate.
  - apply String.eqb_neq in E. rewrite get_delete_neq in Hget by exact E.
    split; [congruence|exact Hget].
Qed.

Lemma remove_keeps_invariant (req : Req.t) (name : string) (port : option Z)
  (services : ServicesMap) :
  storeInvariant services ->
  storeInvariant (fst (remove req name port services)).
Proof.
  intros Hinv. unfold remove.
  destruct (JsMap.get name services) as [group|] eqn:E; [|exact Hinv].
  cbn [fst]. destruct Hinv as ((Hwf & Hgroups) & Hne & Hkey).
  set (id := createServiceIdOfParam name (getClientIP req) port).
  destruct (JsMap.size (JsMap.delete id group) =? 0)%nat eqn:Hsize.
  - split; [split|split].
    + apply wf_delete. exact Hwf.
    + intros n g Hget. apply get_delete_some in Hget; [|exact Hwf].
      eapply Hgroups. apply Hget.
    + intros n g Hget. apply get_delete_some in Hget; [|exact Hwf].
      eapply Hne. apply Hget.
    + intros n g key service Hget Hin.
      apply get_delete_some in Hget; [|exact Hwf].
      eapply Hkey; [apply Hget|exact Hin].
  - apply storeInvariant_set.
    + split; [split|split]; assumption.
    + apply wf_delete. eapply Hgroups. exact E.
    + intros H. rewrite H in Hsize. discriminate.
    + intros key service Hin. apply In_delete in Hin.
      eapply Hkey; eassumption.
Qed.

Lemma storeWf_liveGroups (now : Z) (services : ServicesMap) :
  storeWf services -> storeWf (liveGroups now services).
Proof.
  intros [Hwf Hgroups]. split; [apply wf_liveGroups; exact Hwf|].
  intros name group Hget. rewrite get_liveGroups in Hget by exact Hwf.
  destruct (JsMap.get name services) as [g|] eqn:E; [|discriminate].
  destruct (liveEntries now g) as [|entry entries] eqn:El; [discriminate|].
  injection Hget as <-. rewrite <- El. apply wf_liveEntries.
  eapply Hgroups. exact E.
Qed.

Lemma cleanup_keeps_invariant (now : Z) (services : ServicesMap) :
  storeInvariant services ->
  storeInvariant (cleanupDeadServices now services).
Proof.
  intros (Hwf & Hne & Hkey). rewrite cleanup_liveGroups by exact Hwf.
  split; [apply storeWf_liveGroups; exact Hwf|]. split.
  - intros name group Hget. rewrite get_liveGroups in Hget by apply Hwf.
    destruct (JsMap.get name services) as [g|]; [|discriminate].
    destruct (liveEntries now g); [discriminate|].
    injection Hget as <-. discriminate.
  - intros name group key service Hget Hin.
    rewrite get_liveGroups in Hget by apply Hwf.
    destruct (JsMap.get name services) as [g|] eqn:E; [|discriminate].
    destruct (liveEntries now g) as [|entry entries] eqn:El; [discriminate|].
    injection Hget as <-. rewrite <- El in Hin.
    apply filter_In in Hin. eapply Hkey; [exact E|apply Hin].
Qed.

(** X1.  The store invariant of the registry: the store and its groups
    hold no key twice, no name maps to an empty group, and every
    instance is stored under its own id in the group of its own name.
    The empty store satisfies it, and [register], [heartbeat], the
    removal handler and the sweep all keep it. *)
Theorem writers_keep_store_invariant :
  storeInvariant JsMap.empty /\
  forall (now : Z) (req : Req.t) (name : string) (port : option Z)
         (services : ServicesMap),
    storeInvariant services ->
    storeInvariant (fst (register now req services)) /\
    storeInvariant (fst (heartbeat now req services)) /\
    storeInvariant (fst (remove req name port services)) /\
    storeInvariant (cleanupDeadServices now services).
Proof.
  split; [exact storeInvariant_empty|].
  intros now req name port services Hinv.
  split; [apply register_keeps_invariant; exact Hinv|].
  split; [apply heartbeat_keeps_invariant; exact Hinv|].
  split; [apply remove_keeps_invariant; exact Hinv|].
  apply cleanup_keeps_invariant. exact Hinv.
Qed.

(** X2.  Removal.  For a name that is not in the store the reply is 404
    "Service not found"; for a name that is, but without the instance,
    404 "Service instance not found"; in both cases the store is as
    before.  When the instance is there, the reply is the success
    message, the instance is gone from its group, the other instances
    and the other groups are as before, and the name itself is gone if
    the instance was the last of its group. *)
Theorem remove_deletes_one_instance :
  forall (req : Req.t) (name : string) (port : option Z)
         (services : ServicesMap),
    storeInvariant services ->
    let id := createServiceIdOfParam name (getClientIP req) port in
    let services' := fst (remove req name port services) in
    let reply := snd (remove req name port services) in
    match JsMap.get name services with
    | None => services' = services /\ reply = Status 404 "Service not found"
    | Some group =>
        match JsMap.get id group with
        | None =>
            services' = services /\
            reply = Status 404 "Service instance not found"
        | Some service =>
            reply = Json {| message := "Service removed successfully" |} /\
            JsMap.get name services' =
              match JsMap.delete id group with
              | [] => None
              | entry :: entries => Some (entry :: entries)
              end /\
            JsMap.get id (JsMap.delete id group) = None /\
            (forall other, other <> id ->
               JsMap.get other (JsMap.delete id group)
               = JsMap.get other group) /\
            (forall other, other <> name ->
               JsMap.get other services' = JsMap.get other services)
        end
    end.
Proof.
  intros req name port services ((Hwf & Hgroups) & Hne & _) id services'
    reply.
  subst services' reply. unfold remove. fold id.
  destruct (JsMap.get name services) as [group|] eqn:E;
    [|split; reflexivity].
  cbn [fst snd]. unfold JsMap.has.
  destruct (JsMap.get id group) as [service|] eqn:Ei.
  - split; [reflexivity|].
    split; [|split; [|split]].
    + destruct (JsMap.delete id group) as [|entry entries] eqn:Ed.
      * cbn [JsMap.size List.length Nat.eqb]. apply get_delete_eq.
        exact Hwf.
      * cbn [JsMap.size List.length Nat.eqb]. apply get_set_eq.
    + apply get_delete_eq. eapply Hgroups. exact E.
    + intros other Hother. apply get_delete_neq. congruence.
    + intros other Hother.
      destruct (JsMap.size (JsMap.delete id group) =? 0)%nat.
      * apply get_delete_neq. congruence.
      * apply get_set_neq. congruence.
  - rewrite delete_absent by (unfold JsMap.has; rewrite Ei; reflexivity).
    destruct group as [|entry entries]; [exfalso; eapply Hne; eauto|].
    cbn [JsMap.size List.length Nat.eqb].
    rewrite set_same by exact E. split; reflexivity.
Qed.



Lemma register_store (now : Z) (req : Req.t) (services : ServicesMap)
  (name : string) (port : Z) :
  requiredFields (Req.body req) = Some (name, port) ->
  fst (register now req services) =
  JsMap.set name
    (JsMap.set (createServiceId name (getClientIP req) port)
       {| Server.id := createServiceId name (getClientIP req) port;
          Server.name := name; Server.ip := getClientIP req;
          Server.port := port;
          heartbeatInterval := heartbeatIntervalOr30 (Req.body req);
          registeredAt := now; lastHeartbeat := now |}
       (getOrCreateGroup name services))
    services.
Proof. intros Hreq. unfold register. rewrite Hreq. reflexivity. Qed.

Lemma heartbeat_known_store (now : Z) (req : Req.t) (services : ServicesMap)
  (name : string) (port : Z) (group : ServiceGroup)
  (service : ServiceInstance) :
  requiredFields (Req.body req) = Some (name, port) ->
  JsMap.get name services = Some group ->
  JsMap.get (createServiceId name (getClientIP req) port) group
    = Some service ->
  fst (heartbeat now req services) =
  JsMap.set name
    (JsMap.set (createServiceId name (getClientIP req) port)
       (withLastHeartbeat now service) group)
    services.
Proof.
  intros Hreq Hgroup Hservice. unfold heartbeat, getOrCreateGroup.
  rewrite Hreq. cbv zeta. rewrite Hgroup, Hservice. reflexivity.
Qed.

Lemma In_values_entry {V : Type} (v : V) (m : list (string * V)) :
  In v (JsMap.values m) -> exists k, In (k, v) m.
Proof.
  unfold JsMap.values. intros H. apply in_map_iff in H.
  destruct H as ([k v'] & Hv & Hin). simpl in Hv. subst v'.
  exists k. exact Hin.
Qed.


Lemma listAll_fold (now : Z) (name : string) (l : ServicesMap) :
  forall acc : JsObject.t (list Tagged),
    NoDup (JsMap.keys l) ->
    JsObject.getOwn name
      (fold_left
         (fun allServices entry =>
            JsObject.assign (fst entry)
              (map (fun service => (service, "alive"))
                 (filter (fun service => isServiceAlive now service)
                    (JsMap.values (snd entry))))
              allServices)
         l acc)
    = if String.eqb name "__proto__" then JsObject.getOwn name acc
      else
        match JsMap.get name l with
        | Some group =>
            Some (map (fun service => (service, "alive"))
                    (filter (isServiceAlive now) (JsMap.values group)))
        | None => JsObject.getOwn name acc
        end.
Proof.
  induction l as [|[n group] l IH]; intros acc Hnd.
  - simpl. destruct (String.eqb name "__proto__"); reflexivity.
  - inversion Hnd as [|x xs Hnotin Hnd']; subst.
    cbn [fold_left fst snd JsMap.get]. rewrite IH by exact Hnd'.
    destruct (String.eqb name "__proto__") eqn:P.
    + apply String.eqb_eq in P. subst name.
      destruct (String.eqb n "__proto__") eqn:N.
      * apply String.eqb_eq in N. subst n. reflexivity.
      * apply String.eqb_neq in N. apply getOwn_assign_neq. exact N.
    + apply String.eqb_neq in P.
      destruct (String.eqb name n) eqn:E.
      * apply String.eqb_eq in E. subst n.
        apply get_None_keys in Hnotin. rewrite Hnotin.
        apply getOwn_assign_eq. exact P.
      * apply String.eqb_neq in E.
        destruct (JsMap.get name l); [reflexivity|].
        apply getOwn_assign_neq. congruence.
Qed.

Lemma listAll_fold_wf (now : Z) (l : ServicesMap) :
  forall acc : JsObject.t (list Tagged),
    JsObject.wf acc ->
    JsObject.wf
      (fold_left
         (fun allServices entry =>
            JsObject.assign (fst entry)
              (map (fun service => (service, "alive"))
                 (filter (fun service => isServiceAlive now service)
                    (JsMap.values (snd entry))))
              allServices)
         l acc).
Proof.
  induction l as [|entry l IH]; intros acc Hacc; [exact Hacc|].
  cbn [fold_left]. apply IH. apply wf_assign. exact Hacc.
Qed.

Lemma listAll_wf (now : Z) (services : ServicesMap) :
  JsObject.wf (listAll now services).
Proof. apply listAll_fold_wf. apply wf_empty. Qed.


(** X7.  The discover handler of the JavaScript registry, which builds a
    new object from the seven fields of every live instance, returns
    what the TypeScript handler returns. *)
Theorem javascript_discover_agrees :
  forall (now : Z) (name : string) (services : ServicesMap),
    ServerJs.discover now name services = Server.discover now name services.
Proof.
  intros now name services.
  unfold ServerJs.discover, discover, JsMap.has, getOrCreateGroup.
  destruct (JsMap.get name services) as [group|]; [|reflexivity].
  cbn [negb]. f_equal. f_equal.
  induction (filter (fun service => isServiceAlive now service)
               (JsMap.values group)) as [|[] l IH]; [reflexivity|].
  simpl. rewrite IH. reflexivity.
Qed.

Lemma registeredOnce_invariant : storeInvariant registeredOnce.
Proof. apply register_keeps_invariant. exact storeInvariant_empty. Qed.

Lemma writers_keep_store_invariant_witness :
  storeInvariant JsMap.empty /\ storeInvariant registeredOnce.
Proof.
  split; [exact storeInvariant_empty|].
  apply (proj2 writers_keep_store_invariant 0 (request 1) "svc-a" None
           JsMap.empty storeInvariant_empty).
Defined.

Lemma remove_deletes_one_instance_witness :
  storeInvariant registeredOnce /\
  fst (remove (request 1) "svc-a" (Some 9000) registeredOnce) = JsMap.empty /\
  snd (remove (request 1) "svc-a" (Some 9001) registeredOnce)
    = Status 404 "Service instance not found".
Proof.
  split; [exact registeredOnce_invariant|]. split; [reflexivity|].
  apply (remove_deletes_one_instance (request 1) "svc-a" (Some 9001)
           registeredOnce registeredOnce_invariant).
Defined.





End ServerExtras.

(* ------------------------------------------------------------------ *)
(** ** The TypeScript client: shutdown, cache control, status *)

Module ClientExtras.

Import ClientCommon ClientOps ClientFacts ClientClaims ClientLifecycle
  ClientScenario JsMapFacts JsMapDelete.

(** A call before the expiry of an entry that holds instances. *)
Lemma getServiceUrl_hit (options : ServiceDiscoveryClientOptions) (w : World)
  (serviceName : string) (cache : ServiceCache) (entry : ServiceCacheEntry) :
  JsMap.get serviceName cache = Some entry ->
  services entry <> [] ->
  nowAtValidityCheck w < expiresAt entry ->
  exists url,
    urlOfOneOf (services entry) url /\
    Client.getServiceUrl options w serviceName cache =
    {| cacheAfter := cache; result := Returned url; requests := [] |}.
Proof.
  intros Hget Hne Hearly.
  destruct (nonEmpty_cached serviceName cache entry Hget Hne) as [Hn Ho].
  destruct (select_returns_url (random w) (services entry) Hne)
    as (url & Hsel & Hurl).
  exists url. split; [exact Hurl|].
  unfold Client.getServiceUrl, _isCacheValid. rewrite Hn, Hget. zdecide.
  cbn [andb]. rewrite Ho, Hsel. reflexivity.
Qed.

(** Whether the call goes to the registry. *)
Lemma getServiceUrl_requests (options : ServiceDiscoveryClientOptions)
  (w : World) (serviceName : string) (cache : ServiceCache) :
  requests (Client.getServiceUrl options w serviceName cache) =
  if nonEmpty (_getCachedServices serviceName cache)
     && _isCacheValid (nowAtValidityCheck w) serviceName cache
  then [] else [GET_services serviceName].
Proof.
  unfold Client.getServiceUrl.
  destruct (nonEmpty (_getCachedServices serviceName cache)
            && _isCacheValid (nowAtValidityCheck w) serviceName cache);
    [reflexivity|].
  destruct (_fetchServices (fetched w)) as [[|s rest]|err];
    unfold staleCacheOrThrow;
    try (destruct (nonEmpty (_getCachedServices serviceName cache));
         reflexivity).
  destruct (_selectRandomService (random w) (s :: rest)); [reflexivity|].
  destruct (nonEmpty (_getCachedServices serviceName cache)); reflexivity.
Qed.

(** The cache a call leaves. *)
Lemma getServiceUrl_cache (options : ServiceDiscoveryClientOptions)
  (w : World) (serviceName : string) (cache : ServiceCache) :
  cacheAfter (Client.getServiceUrl options w serviceName cache) = cache \/
  exists fresh,
    fresh <> [] /\
    _fetchServices (fetched w) = Returned fresh /\
    cacheAfter (Client.getServiceUrl options w serviceName cache) =
    _updateCache options (nowAtCachedAt w) (nowAtExpiresAt w) serviceName
      fresh cache.
Proof.
  unfold Client.getServiceUrl.
  destruct (nonEmpty (_getCachedServices serviceName cache)
            && _isCacheValid (nowAtValidityCheck w) serviceName cache);
    [left; reflexivity|].
  destruct (_fetchServices (fetched w)) as [[|s rest]|err];
    rewrite ?staleCacheOrThrow_cache; try (left; reflexivity).
  right. exists (s :: rest). split; [discriminate|]. split; [reflexivity|].
  destruct (_selectRandomService (random w) (s :: rest));
    rewrite ?staleCacheOrThrow_cache; reflexivity.
Qed.

Lemma updateCache_other (options : ServiceDiscoveryClientOptions)
  (t1 t2 : Z) (serviceName other : string) (fresh : list ServiceResponse)
  (cache : ServiceCache) :
  other <> serviceName ->
  JsMap.get other (_updateCache options t1 t2 serviceName fresh cache)
  = JsMap.get other cache.
Proof.
  intros Hne. unfold _updateCache.
  destruct (Math_min (map Server.heartbeatInterval fresh)); [|reflexivity].
  apply get_set_neq. congruence.
Qed.

Lemma updateCache_invariant (options : ServiceDiscoveryClientOptions)
  (t1 t2 : Z) (serviceName : string) (fresh : list ServiceResponse)
  (cache : ServiceCache) :
  cacheInvariant cache ->
  cacheInvariant (_updateCache options t1 t2 serviceName fresh cache).
Proof.
  intros [Hwf Hne]. unfold _updateCache.
  destruct (Math_min (map Server.heartbeatInterval fresh)) as [m|] eqn:Hm;
    [|split; assumption].
  split; [apply wf_set; exact Hwf|].
  intros other entry Hget.
  destruct (get_set_cases _ _ _ _ _ Hget) as [[_ ->]|[_ H]];
    [|eapply Hne; exact H].
  simpl. destruct fresh; [discriminate|discriminate].
Qed.

(** X8.  Shutdown.  [unregister] on a client that is registered sends
    one DELETE for the registered name and port and, whether that
    request succeeds or fails, returns normally and leaves the client as
    it was when created: no identity, no timer (so no heartbeat is sent
    any more), an empty cache.  On a client that is not registered it
    sends nothing and changes nothing; so a second [unregister] in a row
    is a no-operation. *)
Theorem unregister_cleans_up_whatever_the_registry_answers :
  (forall (response : Completion unit) (st : State) (cs : CurrentService),
      currentService st = Some cs ->
      isRegistered st = true ->
      unregister response st =
        (initialState, Returned tt, [DELETE_services (name cs) (port cs)])
      /\ Client.timerFires initialState = []
      /\ forall response', unregister response' initialState
                           = (initialState, Returned tt, [])) /\
  (forall (response : Completion unit) (st : State),
      currentService st = None \/ isRegistered st = false ->
      unregister response st = (st, Returned tt, [])).
Proof.
  split.
  - intros response st cs Hcs Hreg. split; [|split; [reflexivity|]].
    + unfold unregister, _cleanup. rewrite Hcs, Hreg. cbn [negb].
      destruct response; destruct (heartbeatTimer st); reflexivity.
    + intros response'. reflexivity.
  - intros response st [Hnone|Hunreg]; unfold unregister.
    + rewrite Hnone. reflexivity.
    + destruct (currentService st); [|reflexivity].
      rewrite Hunreg. reflexivity.
Qed.


(** X10.  What one call may touch.  A call of [getServiceUrl] sends at
    most one request, a GET for the name asked; it never changes the
    entry of another name; and when the fetch is not made, fails or
    returns no instance it leaves the whole cache as it was, so that an
    expired entry served as a fallback stays expired. *)
Theorem resolve_touches_only_its_own_entry :
  forall (options : ServiceDiscoveryClientOptions) (w : World)
         (serviceName : string) (cache : ServiceCache),
    let r := Client.getServiceUrl options w serviceName cache in
    (requests r = [] \/ requests r = [GET_services serviceName]) /\
    (forall other, other <> serviceName ->
                   JsMap.get other (cacheAfter r) = JsMap.get other cache) /\
    (requests r = [] \/ nothingFetched w -> cacheAfter r = cache).
Proof.
  intros options w serviceName cache r. subst r. split; [|split].
  - rewrite getServiceUrl_requests.
    destruct (nonEmpty _ && _); [left|right]; reflexivity.
  - intros other Hother.
    destruct (getServiceUrl_cache options w serviceName cache)
      as [->|(fresh & _ & _ & ->)]; [reflexivity|].
    apply updateCache_other. exact Hother.
  - intros H.
    destruct (getServiceUrl_cache options w serviceName cache)
      as [Hsame|(fresh & Hne & Hfetch & Hupd)]; [exact Hsame|].
    destruct H as [Hreq|Hnothing].
    + rewrite getServiceUrl_requests in Hreq. unfold Client.getServiceUrl.
      destruct (nonEmpty _ && _); [reflexivity|discriminate].
    + exfalso. apply Hne. apply Hnothing. exact Hfetch.
Qed.

(** X11.  The cache never holds an entry without instances: the empty
    cache is a [Map] of entries with instances, and a call of
    [getServiceUrl], of either client, keeps it so.  On such a cache the
    TypeScript client throws exactly when the cache has no entry for the
    name and the fetch failed or returned no instance, and what it
    throws is the no-instances error for that name. *)
Theorem cache_entries_are_never_empty :
  cacheInvariant JsMap.empty /\
  forall (options : ServiceDiscoveryClientOptions) (w : World)
         (serviceName : string) (cache : ServiceCache),
    cacheInvariant cache ->
    cacheInvariant
      (cacheAfter (Client.getServiceUrl options w serviceName cache)) /\
    cacheInvariant
      (cacheAfter (ClientJs.getServiceUrl options w serviceName cache)) /\
    forall err,
      result (Client.getServiceUrl options w serviceName cache) = Thrown err
      <-> (err = noInstances serviceName /\
           JsMap.get serviceName cache = None /\
           nothingFetched w).
Proof.
  split; [split; [constructor|discriminate]|].
  intros options w serviceName cache Hinv. split; [|split].
  - destruct (getServiceUrl_cache options w serviceName cache)
      as [->|(fresh & _ & _ & ->)];
      [exact Hinv|apply updateCache_invariant; exact Hinv].
  - unfold ClientJs.getServiceUrl.
    destruct (nonEmpty _ && _); [exact Hinv|].
    destruct (_fetchServices (fetched w)) as [[|s rest]|err];
      rewrite ?staleCacheOrThrow_cache; try exact Hinv.
    apply updateCache_invariant. exact Hinv.
  - intros err. split.
    + intros Hthrown.
      destruct (typescript_throws_only_without_cache _ _ _ _ _ Hthrown)
        as (Herr & Hn & Hfetch).
      split; [exact Herr|split; [|exact Hfetch]].
      unfold _getCachedServices in Hn.
      destruct (JsMap.get serviceName cache) as [entry|] eqn:E;
        [|reflexivity].
      exfalso. destruct Hinv as [_ Hne]. apply (Hne _ _ E).
      destruct (services entry); [reflexivity|discriminate].
    + intros (-> & Hnone & Hnothing).
      unfold Client.getServiceUrl, _getCachedServices, _isCacheValid.
      rewrite Hnone. cbn [nonEmpty andb].
      destruct (_fetchServices (fetched w)) as [[|s rest]|e] eqn:E.
      * reflexivity.
      * pose proof (Hnothing _ E) as Hempty. discriminate.
      * reflexivity.
Qed.

(** X12.  The two clients resolve alike unless the fetch is made and
    fails: on a cache hit, and whenever the request to the registry is
    answered, the JavaScript [getServiceUrl] leaves the same cache,
    sends the same request and comes to the same result as the
    TypeScript one. *)
Theorem clients_agree_unless_fetch_fails :
  forall (options : ServiceDiscoveryClientOptions) (w : World)
         (serviceName : string) (cache : ServiceCache),
    (nonEmpty (_getCachedServices serviceName cache)
       && _isCacheValid (nowAtValidityCheck w) serviceName cache = true
     \/ exists data, fetched w = Returned data) ->
    ClientJs.getServiceUrl options w serviceName cache =
    Client.getServiceUrl options w serviceName cache.
Proof.
  intros options w serviceName cache H.
  unfold ClientJs.getServiceUrl, Client.getServiceUrl.
  destruct (nonEmpty _ && _); [reflexivity|].
  destruct H as [H|[data H]]; [discriminate|]. rewrite H.
  cbn [_fetchServices]. destruct (orEmpty data) as [|s rest]; [reflexivity|].
  destruct (select_returns_url (random w) (s :: rest)) as (url & -> & _);
    [discriminate|reflexivity].
Qed.

Section Status.

Variable toISOString : Z -> string.

Lemma getCacheStatus_fold (now : Z) (serviceName : string)
  (l : ServiceCache) :
  forall acc : JsMap.t ServiceCacheStatus,
    NoDup (JsMap.keys l) ->
    JsMap.get serviceName
      (fold_left
         (fun status entry =>
            JsMap.set (fst entry) (statusOf toISOString now (snd entry))
              status)
         l acc)
    = match JsMap.get serviceName l with
      | Some entry => Some (statusOf toISOString now entry)
      | None => JsMap.get serviceName acc
      end.
Proof.
  induction l as [|[n e] l IH]; intros acc Hnd; [reflexivity|].
  inversion Hnd as [|x xs Hnotin Hnd']; subst.
  cbn [fold_left fst snd JsMap.get]. rewrite IH by exact Hnd'.
  destruct (String.eqb serviceName n) eqn:E.
  - apply String.eqb_eq in E. subst n.
    apply get_None_keys in Hnotin. rewrite Hnotin. apply get_set_eq.
  - apply String.eqb_neq in E.
    destruct (JsMap.get serviceName l); [reflexivity|].
    apply get_set_neq. congruence.
Qed.


End Status.

Lemma unregister_cleans_up_whatever_the_registry_answers_witness :
  let registered :=
    fst (fst (Client.register defaultOptions "user-service" 4000
                (Returned confirmation) initialState)) in
  (isRegistered registered = true) /\
  unregister (Thrown "connect ECONNREFUSED") registered =
    (initialState, Returned tt, [DELETE_services "user-service" 4000]) /\
  unregister (Returned tt) initialState = (initialState, Returned tt, []).
Proof.
  intros registered. split; [reflexivity|]. split.
  - apply (proj1 unregister_cleans_up_whatever_the_registry_answers
             (Thrown "connect ECONNREFUSED") registered
             {| id := "user-service-10.0.0.3-4000"; name := "user-service";
                port := 4000; heartbeatInterval := 10 |}
             eq_refl eq_refl).
  - apply (proj2 unregister_cleans_up_whatever_the_registry_answers
             (Returned tt) initialState (or_introl eq_refl)).
Defined.


Lemma resolve_touches_only_its_own_entry_witness :
  nothingFetched registryDown /\
  cacheAfter (Client.getServiceUrl defaultOptions registryDown
                "order-service" expiredCache) = expiredCache.
Proof.
  assert (H : nothingFetched registryDown) by (intros fresh H; discriminate).
  split; [exact H|].
  apply (proj2 (proj2 (resolve_touches_only_its_own_entry defaultOptions
                         registryDown "order-service" expiredCache))).
  right. exact H.
Defined.

Lemma expiredCache_invariant : cacheInvariant expiredCache.
Proof.
  split; [repeat constructor; intros []|].
  intros n e. simpl. destruct (String.eqb n "order-service"); [|discriminate].
  intros [= <-]. discriminate.
Qed.

Lemma cache_entries_are_never_empty_witness :
  cacheInvariant expiredCache /\
  cacheInvariant
    (cacheAfter (Client.getServiceUrl defaultOptions firstLookup
                   "user-service" expiredCache)).
Proof.
  split; [exact expiredCache_invariant|].
  apply (proj2 cache_entries_are_never_empty defaultOptions firstLookup
           "user-service" expiredCache expiredCache_invariant).
Defined.

Lemma clients_agree_unless_fetch_fails_witness :
  (exists data, fetched firstLookup = Returned data) /\
  ClientJs.getServiceUrl defaultOptions firstLookup "order-service"
    JsMap.empty
  = Client.getServiceUrl defaultOptions firstLookup "order-service"
      JsMap.empty.
Proof.
  assert (H : exists data, fetched firstLookup = Returned data)
    by (eexists; reflexivity).
  split; [exact H|].
  apply (clients_agree_unless_fetch_fails defaultOptions firstLookup
           "order-service" JsMap.empty (or_intror H)).
Defined.


End ClientExtras.

(* ------------------------------------------------------------------ *)
(** ** The circuit breaker: when the operation is tried, the class
    wrapper, the gateway *)

Module BreakerExtras.

Import CircuitBreaker BreakerFacts BreakerScenario BreakerClaims.

Section Extras.

Context {Args Ret : Type}.

Local Abbreviation Breaker := (SingleMethodCircuitBreaker Args Ret).

Lemma closed_attempted (b : Breaker) (original : Method Args Ret)
  (args : Args) (now : Z) :
  isCircuitCurrentlyOpen (beforeCall now b) = false ->
  attempted (executeWithCircuitBreaker b original args now) args.
Proof.
  intros Hc. unfold attempted, executeWithCircuitBreaker. rewrite Hc.
  destruct (original args); left; reflexivity.
Qed.

(** X14.  When the protected operation is tried.  With a positive reset
    timeout, a call on a closed circuit tries the operation exactly when
    fewer than [maximumFailuresAllowed] recorded failures are newer than
    [now - timeWindowInMilliseconds]; a call on an open circuit tries it
    exactly when [now] has reached [nextAllowedAttemptTime].  A call
    that does not try it invokes the fallback alone and comes to the
    fallback's result. *)
Theorem operation_is_tried_exactly_when :
  forall (b : Breaker) (original : Method Args Ret) (args : Args) (now : Z),
    0 < resetTimeoutInMilliseconds (configuration b) ->
    let e := executeWithCircuitBreaker b original args now in
    let recent :=
      filter (fun timestamp =>
                timestamp >? now - timeWindowInMilliseconds (configuration b))
        (failureTimestampsWithinWindow b) in
    (attempted e args <->
     if isCircuitCurrentlyOpen b
     then nextAllowedAttemptTime b <= now
     else Z.of_nat (List.length recent)
          < maximumFailuresAllowed (configuration b)) /\
    (~ attempted e args ->
     completion e = fallbackMethodToCall b args /\
     invocations e = [InvokedFallback args]).
Proof.
  intros b original args now Hreset e recent. split.
  - assert (Hiff : attempted e args <->
                   isCircuitCurrentlyOpen (beforeCall now b) = false).
    { split; [apply attempted_closed|apply closed_attempted]. }
    rewrite Hiff. subst recent. clear Hiff e.
    destruct b as [n cfg fb o fs t]. cbn [configuration
      failureTimestampsWithinWindow isCircuitCurrentlyOpen
      nextAllowedAttemptTime] in *.
    unfold beforeCall, shouldOpenCircuit, shouldAttemptRecovery,
      openCircuitAndSetResetTime, removeOldFailureRecords,
      setCircuitToHalfOpen.
    destruct o; simpl.
    + destruct (Z.leb_spec t now) as [Hle|Hgt]; rewrite Z.geb_leb.
      * replace (t <=? now) with true by (symmetry; apply Z.leb_le; lia).
        simpl. split; auto.
      * replace (t <=? now) with false by (symmetry; apply Z.leb_gt; lia).
        simpl. split; [discriminate|lia].
    + set (len := Z.of_nat (List.length
                    (filter (fun timestamp =>
                       timestamp >? now - timeWindowInMilliseconds cfg) fs))).
      rewrite Z.geb_leb.
      destruct (Z.leb_spec (maximumFailuresAllowed cfg) len) as [Hle|Hgt];
        simpl.
      * zdecide. simpl. split; [discriminate|lia].
      * split; [intros _; exact Hgt|reflexivity].
  - intros Hnot. subst e. unfold executeWithCircuitBreaker in *.
    destruct (isCircuitCurrentlyOpen (beforeCall now b)) eqn:Ho.
    + simpl. rewrite beforeCall_fallback. split; reflexivity.
    + exfalso. apply Hnot. unfold attempted.
      destruct (original args); left; reflexivity.
Qed.

(** X15.  An open circuit shields the operation until its reset time:
    over any run of calls that are all made before
    [nextAllowedAttemptTime], every call invokes the fallback alone and
    comes to its result, and the circuit stays open with the same reset
    time. *)
Theorem open_circuit_shields_until_reset_time :
  forall (cs : list (Call Args Ret)) (b : Breaker),
    isCircuitCurrentlyOpen b = true ->
    Forall (fun c => callTime c < nextAllowedAttemptTime b) cs ->
    let '(b', es) := runCalls b cs in
    isCircuitCurrentlyOpen b' = true /\
    nextAllowedAttemptTime b' = nextAllowedAttemptTime b /\
    Forall2 (fun c e =>
               invocations e = [InvokedFallback (callArguments c)] /\
               completion e = fallbackMethodToCall b (callArguments c))
      cs es.
Proof.
  induction cs as [|c cs IH]; intros b Ho Hearly.
  - simpl. split; [exact Ho|split; [reflexivity|constructor]].
  - inversion Hearly as [|c' cs' Hc Hcs]; subst.
    cbn [runCalls].
    assert (Hstep : step b c =
                    {| breakerAfter := removeOldFailureRecords (callTime c) b;
                       completion := fallbackMethodToCall b (callArguments c);
                       invocations := [InvokedFallback (callArguments c)] |}).
    { unfold step, executeWithCircuitBreaker.
      rewrite (beforeCall_open_early _ _ Ho Hc). simpl. rewrite Ho.
      reflexivity. }
    rewrite Hstep. cbn [breakerAfter].
    specialize (IH (removeOldFailureRecords (callTime c) b) Ho Hcs).
    destruct (runCalls (removeOldFailureRecords (callTime c) b) cs)
      as [b' es].
    destruct IH as (Ho' & Hnext & Hall).
    split; [exact Ho'|split; [exact Hnext|]].
    constructor; [split; reflexivity|exact Hall].
Qed.

(** X16.  After a call made at [now], with a positive window, every
    failure on record is newer than [now - timeWindowInMilliseconds]:
    the status never counts a failure that had left the window when the
    last call was made.  The only timestamp a call can add is its own
    time. *)
Theorem recorded_failures_are_inside_the_window :
  forall (b : Breaker) (original : Method Args Ret) (args : Args) (now : Z),
    0 < timeWindowInMilliseconds (configuration b) ->
    let after := breakerAfter (executeWithCircuitBreaker b original args now) in
    Forall (fun timestamp =>
              now - timeWindowInMilliseconds (configuration b) < timestamp)
      (failureTimestampsWithinWindow after) /\
    (forall timestamp,
        In timestamp (failureTimestampsWithinWindow after) ->
        In timestamp (failureTimestampsWithinWindow b) \/ timestamp = now).
Proof.
  intros b original args now Hwindow after.
  assert (Hpruned :
            Forall (fun timestamp =>
                      now - timeWindowInMilliseconds (configuration b)
                      < timestamp)
              (failureTimestampsWithinWindow (beforeCall now b))).
  { rewrite beforeCall_failures. apply Forall_forall. intros ts Hin.
    apply filter_In in Hin. destruct Hin as [_ Hgt].
    apply Z.gtb_lt in Hgt. exact Hgt. }
  assert (Hold : forall ts,
             In ts (failureTimestampsWithinWindow (beforeCall now b)) ->
             In ts (failureTimestampsWithinWindow b)).
  { intros ts. rewrite beforeCall_failures. intros Hin.
    apply filter_In in Hin. apply Hin. }
  subst after. unfold executeWithCircuitBreaker.
  destruct (isCircuitCurrentlyOpen (beforeCall now b));
    [|destruct (original args)]; cbn [breakerAfter].
  - split; [exact Hpruned|]. intros ts Hin. left. apply Hold. exact Hin.
  - simpl. split; [constructor|intros ts []].
  - simpl. split.
    + apply Forall_app. split; [exact Hpruned|]. repeat constructor. lia.
    + intros ts Hin. apply in_app_or in Hin.
      destruct Hin as [Hin|[<-|[]]]; [left; apply Hold; exact Hin|right].
      reflexivity.
Qed.


(** X18.  With a fallback that returns on every argument, the function
    made by [createCircuitBreakerMethod] returns on every argument,
    after any run of earlier calls and whatever the protected operation
    does: it returns the operation's result when the operation was tried
    and returned, and the fallback's result otherwise. *)
Theorem total_fallback_makes_the_wrapped_call_total :
  forall (name : string) (config : option CircuitBreakerConfig)
         (fallback : Method Args Ret) (earlier : list (Call Args Ret))
         (original : Method Args Ret) (args : Args) (now : Z),
    (forall a, exists r, fallback a = Returned r) ->
    let b := fst (runCalls
                    (createCircuitBreakerMethod name config (Some fallback))
                    earlier) in
    let e := wrappedCall b original args now in
    exists r,
      completion e = Returned r /\
      ((attempted e args /\ original args = Returned r) \/
       fallback args = Returned r).
Proof.
  intros name config fallback earlier original args now Htotal b e.
  assert (Hfb : fallbackMethodToCall b = fallback)
    by (subst b; rewrite runCalls_fallback; reflexivity).
  destruct (Htotal args) as [r Hr].
  subst e. unfold wrappedCall, attempted, executeWithCircuitBreaker.
  destruct (isCircuitCurrentlyOpen (beforeCall now b)).
  - exists r. cbn [completion]. rewrite beforeCall_fallback, Hfb.
    split; [exact Hr|right; exact Hr].
  - destruct (original args) as [r'|err].
    + exists r'. split; [reflexivity|left].
      split; [left; reflexivity|reflexivity].
    + exists r. cbn [completion]. rewrite beforeCall_fallback, Hfb.
      split; [exact Hr|right; exact Hr].
Qed.

End Extras.

Import ClassWrapper Gateway WrapperScenario JsMapFacts JsMapDelete.

(** X19.  The two protected calls of the gateway never throw, whatever
    the services do and whatever calls came before.  The users call
    returns what the user service returned or the two fallback users;
    the orders call returns what the order service returned or, of the
    fallback orders, those of the user asked for, of which there is one
    at most. *)
Theorem gateway_calls_never_throw :
  forall (earlierUsers : list (Call unit (list User)))
         (earlierOrders : list (Call Z (list Order)))
         (fetchUsersFromService : Method unit (list User))
         (fetchOrdersFromService : Method Z (list Order))
         (requested now : Z),
    (exists users,
        completion (wrappedCall (fst (runCalls protectedFetchUsers
                                        earlierUsers))
                      fetchUsersFromService tt now) = Returned users /\
        (fetchUsersFromService tt = Returned users \/ users = fallbackUsers))
    /\
    (exists orders,
        completion (wrappedCall (fst (runCalls protectedFetchOrders
                                        earlierOrders))
                      fetchOrdersFromService requested now) = Returned orders /\
        (fetchOrdersFromService requested = Returned orders \/
         (Forall (fun order => userId order = requested) orders /\
          incl orders fallbackOrders /\
          (List.length orders <= 1)%nat))).
Proof.
  intros earlierUsers earlierOrders fetchUsers fetchOrders requested now.
  split.
  - destruct (total_fallback_makes_the_wrapped_call_total
                "fetchUsersFromService"
                (Some {| maximumFailuresAllowed := 3;
                         timeWindowInMilliseconds := 30000;
                         resetTimeoutInMilliseconds := 30000 |})
                getUsersFallback earlierUsers
                fetchUsers tt now) as (users & Hc & Hsrc).
    { intros a. eexists. reflexivity. }
    exists users. split; [exact Hc|].
    destruct Hsrc as [[_ H]|H]; [left; exact H|right].
    unfold getUsersFallback in H. congruence.
  - destruct (total_fallback_makes_the_wrapped_call_total
                "fetchOrdersFromService"
                (Some {| maximumFailuresAllowed := 3;
                         timeWindowInMilliseconds := 30000;
                         resetTimeoutInMilliseconds := 10000 |})
                getOrdersFallback earlierOrders
                fetchOrders requested now) as (orders & Hc & Hsrc).
    { intros a. eexists. reflexivity. }
    exists orders. split; [exact Hc|].
    destruct Hsrc as [[_ H]|H]; [left; exact H|right].
    assert (Horders : orders =
                      filter (fun order => userId order =? requested)
                        fallbackOrders)
      by (unfold getOrdersFallback in H; congruence).
    rewrite Horders. clear H Hc Horders.
    split; [|split].
    + apply Forall_forall. intros order Hin. apply filter_In in Hin.
      destruct Hin as [_ Heq]. apply Z.eqb_eq in Heq. exact Heq.
    + intros order Hin. apply filter_In in Hin. apply Hin.
    + unfold fallbackOrders. cbn [filter userId].
      destruct (Z.eqb_spec 1 requested); destruct (Z.eqb_spec 2 requested);
        simpl; lia.
Qed.

Section WrapperFacts.

Context {Args Ret : Type}.

Lemma initialize_fold (methodName : string)
  (l : ClassMethodConfigurations Args Ret) :
  forall acc : JsMap.t (SingleMethodCircuitBreaker Args Ret),
    NoDup (JsMap.keys l) ->
    JsMap.get methodName
      (fold_left
         (fun breakers entry =>
            match snd entry with
            | None => breakers
            | Some config =>
                JsMap.set (fst entry)
                  (newSingleMethodCircuitBreaker (fst entry)
                     (circuitBreakerConfig config) (fallbackMethod config))
                  breakers
            end)
         l acc)
    = match JsMap.get methodName l with
      | Some (Some config) =>
          Some (newSingleMethodCircuitBreaker methodName
                  (circuitBreakerConfig config) (fallbackMethod config))
      | _ => JsMap.get methodName acc
      end.
Proof.
  induction l as [|[n c] l IH]; intros acc Hnd; [reflexivity|].
  inversion Hnd as [|x xs Hnotin Hnd']; subst.
  cbn [fold_left fst snd JsMap.get]. rewrite IH by exact Hnd'.
  destruct (String.eqb methodName n) eqn:E.
  - apply String.eqb_eq in E. subst n.
    apply get_None_keys in Hnotin. rewrite Hnotin.
    destruct c as [config|]; [apply get_set_eq|reflexivity].
  - apply String.eqb_neq in E.
    destruct (JsMap.get methodName l) as [[config|]|];
      [reflexivity| |];
      (destruct c as [config'|]; [apply get_set_neq; congruence|reflexivity]).
Qed.


End WrapperFacts.

Lemma operation_is_tried_exactly_when_witness :
  0 < resetTimeoutInMilliseconds (configuration afterThreeFailures) /\
  ~ attempted (executeWithCircuitBreaker afterThreeFailures answering [7] 2500)
      [7].
Proof.
  split; [simpl; lia|].
  intros H.
  apply (proj1 (proj1 (operation_is_tried_exactly_when afterThreeFailures
                         answering [7] 2500 ltac:(simpl; lia)))) in H.
  simpl in H. lia.
Defined.

Lemma open_circuit_shields_until_reset_time_witness :
  (isCircuitCurrentlyOpen opened = true /\
   Forall (fun c => callTime c < nextAllowedAttemptTime opened)
     [succeedingCallAt 3000; succeedingCallAt 7499]) /\
  (let '(b', es) :=
     runCalls opened [succeedingCallAt 3000; succeedingCallAt 7499] in
   isCircuitCurrentlyOpen b' = true /\
   nextAllowedAttemptTime b' = nextAllowedAttemptTime opened /\
   Forall2 (fun c e =>
              invocations e = [InvokedFallback (callArguments c)] /\
              completion e = fallbackMethodToCall opened (callArguments c))
     [succeedingCallAt 3000; succeedingCallAt 7499] es).
Proof.
  assert (H : Forall (fun c => callTime c < nextAllowedAttemptTime opened)
                [succeedingCallAt 3000; succeedingCallAt 7499])
    by (repeat constructor; simpl; lia).
  split; [split; [reflexivity|exact H]|].
  apply (open_circuit_shields_until_reset_time
           [succeedingCallAt 3000; succeedingCallAt 7499] opened eq_refl H).
Defined.

Lemma recorded_failures_are_inside_the_window_witness :
  0 < timeWindowInMilliseconds (configuration afterThreeFailures) /\
  Forall (fun timestamp => 11500 - 10000 < timestamp)
    (failureTimestampsWithinWindow
       (breakerAfter
          (executeWithCircuitBreaker afterThreeFailures refusing [7] 11500))).
Proof.
  split; [simpl; lia|].
  apply (proj1 (recorded_failures_are_inside_the_window afterThreeFailures
                  refusing [7] 11500 ltac:(simpl; lia))).
Defined.


Lemma total_fallback_makes_the_wrapped_call_total_witness :
  (forall a, exists r, cachedAnswer a = Returned r) /\
  exists r,
    completion (wrappedCall
                  (createCircuitBreakerMethod "getUser" None
                     (Some cachedAnswer)) refusing [7] 0) = Returned r.
Proof.
  assert (H : forall a, exists r, cachedAnswer a = Returned r)
    by (intros a; eexists; reflexivity).
  split; [exact H|].
  destruct (total_fallback_makes_the_wrapped_call_total "getUser" None
              cachedAnswer [] refusing [7] 0 H) as (r & Hr & _).
  exists r. exact Hr.
Defined.


End BreakerExtras.

Module ClientLifecycleExtras.

Import ClientCommon ClientOps ClientFacts ClientClaims ClientLifecycle
  ClientScenario ClientExtras JsMapFacts.

(** X22.  Once a name has been resolved it keeps resolving.  When the
    cache holds an entry with instances for the name, a call of the
    TypeScript [getServiceUrl] returns a URL whatever the clock and the
    registry do: the URL of a cached instance, or of an instance just
    fetched; and the cache it leaves holds again an entry with instances
    for the name. *)
Theorem cached_name_always_resolves :
  forall (options : ServiceDiscoveryClientOptions) (w : World)
         (serviceName : string) (cache : ServiceCache)
         (entry : ServiceCacheEntry),
    JsMap.get serviceName cache = Some entry ->
    services entry <> [] ->
    let r := Client.getServiceUrl options w serviceName cache in
    (exists url,
        result r = Returned url /\
        (urlOfOneOf (services entry) url \/
         exists fresh,
           _fetchServices (fetched w) = Returned fresh /\
           urlOfOneOf fresh url)) /\
    (exists entry',
        JsMap.get serviceName (cacheAfter r) = Some entry' /\
        services entry' <> []).
Proof.
  intros options w serviceName cache entry Hget Hne r. subst r. split.
  - destruct (nonEmpty (_getCachedServices serviceName cache)
              && _isCacheValid (nowAtValidityCheck w) serviceName cache)
      eqn:Hhit.
    + assert (Hearly : nowAtValidityCheck w < expiresAt entry).
      { apply andb_true_iff in Hhit. destruct Hhit as [_ Hvalid].
        unfold _isCacheValid in Hvalid. rewrite Hget in Hvalid.
        apply Z.ltb_lt. exact Hvalid. }
      destruct (getServiceUrl_hit options w serviceName cache entry Hget Hne
                  Hearly) as (url & Hurl & ->).
      exists url. split; [reflexivity|left; exact Hurl].
    + destruct (_fetchServices (fetched w)) as [[|s rest]|err] eqn:E.
      * destruct (typescript_serves_stale_cache options w serviceName cache
                    entry Hget Hne) as (url & Hr & Hurl).
        { intros fresh Hf. congruence. }
        exists url. split; [exact Hr|left; exact Hurl].
      * destruct (getServiceUrl_fresh options w serviceName cache (s :: rest)
                    Hhit E) as (url & Hurl & ->); [discriminate|].
        exists url. split; [reflexivity|right].
        exists (s :: rest). split; [reflexivity|exact Hurl].
      * destruct (typescript_serves_stale_cache options w serviceName cache
                    entry Hget Hne) as (url & Hr & Hurl).
        { intros fresh Hf. congruence. }
        exists url. split; [exact Hr|left; exact Hurl].
  - destruct (getServiceUrl_cache options w serviceName cache)
      as [->|(fresh & Hfne & _ & ->)].
    + exists entry. split; assumption.
    + destruct (updateCache_entry options (nowAtCachedAt w) serviceName fresh
                  cache Hfne) as (e0 & _).
      unfold _updateCache.
      destruct (Math_min (map Server.heartbeatInterval fresh)) as [m|] eqn:Hm.
      * eexists. split; [apply get_set_eq|exact Hfne].
      * destruct fresh; [congruence|discriminate].
Qed.

(** X23.  Clearing the cache keeps the registration and the heartbeat
    timer, but discards the fallback with the entries.  On a client
    whose cache is empty, as [clearCache] and [unregister] leave it, the
    next call of [getServiceUrl] goes to the registry, and throws the
    no-instances error if the fetch fails or returns none, leaving the
    client as it is. *)
Theorem clearing_the_cache_discards_the_fallback :
  (forall st : State,
      serviceCache (clearCache st) = JsMap.empty /\
      currentService (clearCache st) = currentService st /\
      heartbeatTimer (clearCache st) = heartbeatTimer st /\
      isRegistered (clearCache st) = isRegistered st /\
      Client.timerFires (clearCache st) = Client.timerFires st) /\
  (forall (options : ServiceDiscoveryClientOptions) (w : World)
          (serviceName : string) (st : State),
      serviceCache st = JsMap.empty ->
      snd (resolve options w serviceName st) = [GET_services serviceName] /\
      (nothingFetched w ->
       resolve options w serviceName st =
       (st, Thrown (noInstances serviceName), [GET_services serviceName]))).
Proof.
  split; [intros st; repeat split|].
  intros options w serviceName st Hempty. unfold resolve.
  rewrite Hempty. cbn [fst snd]. split.
  - rewrite getServiceUrl_requests. reflexivity.
  - intros Hnothing. unfold Client.getServiceUrl.
    cbn [_getCachedServices JsMap.get JsMap.empty nonEmpty andb].
    destruct st as [cs timer reg cache]. cbn [serviceCache] in Hempty.
    subst cache. cbn [currentService heartbeatTimer isRegistered].
    destruct (_fetchServices (fetched w)) as [[|s rest]|err] eqn:E.
    + reflexivity.
    + pose proof (Hnothing _ E). discriminate.
    + reflexivity.
Qed.

(** X24.  The outcomes of a registration, on the TypeScript client.  If
    the request fails, [register] throws its error, has sent nothing
    but the register request, and leaves the client as it was: no timer
    is started.  If the registry confirms, the client is registered, the
    cache is kept, one heartbeat has been sent at once, the timer runs
    with the confirmed interval in milliseconds, every firing sends a
    heartbeat that carries the confirmed interval, and [getServiceId]
    answers the confirmed id, or ["{name}-{port}"] when that id is
    empty.  On a client that never registered [getServiceId] answers
    ["undefined-undefined"]. *)
Theorem registration_outcomes :
  forall (options : ServiceDiscoveryClientOptions) (serviceName : string)
         (servicePort : Z) (st : State),
    (forall error,
        Client.register options serviceName servicePort (Thrown error) st =
        (st, Thrown error,
         [POST_register (registerPayload options serviceName servicePort)]))
    /\
    (forall data,
        let beat :=
          POST_heartbeat
            {| ServiceRequest.name := Some serviceName;
               ServiceRequest.port := Some servicePort;
               ServiceRequest.heartbeatInterval :=
                 Some (Server.rr_heartbeatInterval data) |} in
        let '(st', answer, sent) :=
          Client.register options serviceName servicePort (Returned data) st in
        answer = Returned data /\
        sent = [POST_register
                  (registerPayload options serviceName servicePort); beat] /\
        isRegistered st' = true /\
        serviceCache st' = serviceCache st /\
        heartbeatTimer st' =
          Some {| delay := Server.rr_heartbeatInterval data * 1000;
                  running := true |} /\
        Client.timerFires st' = [beat] /\
        getServiceId st' =
          if String.eqb (Server.rr_id data) ""
          then String.append serviceName
                 (String.append "-" (numberToString servicePort))
          else Server.rr_id data) /\
    getServiceId initialState = "undefined-undefined".
Proof.
  intros options serviceName servicePort st.
  split; [intros error; reflexivity|]. split; [|reflexivity].
  intros data beat.
  unfold Client.register, Client._startHeartbeat, Client.timerFires,
    getServiceId. simpl. repeat split.
Qed.

Lemma cached_name_always_resolves_witness :
  (JsMap.get "order-service" expiredCache
     = Some {| services := [orderService]; cachedAt := 0;
               expiresAt := 60000 |}) /\
  exists url,
    result (Client.getServiceUrl defaultOptions registryDown "order-service"
              expiredCache) = Returned url.
Proof.
  split; [reflexivity|].
  destruct (proj1 (cached_name_always_resolves defaultOptions registryDown
                     "order-service" expiredCache
                     {| services := [orderService]; cachedAt := 0;
                        expiresAt := 60000 |} eq_refl
                     ltac:(discriminate))) as (url & Hurl & _).
  exists url. exact Hurl.
Defined.

Lemma clearing_the_cache_discards_the_fallback_witness :
  (serviceCache initialState = JsMap.empty /\ nothingFetched registryDown) /\
  resolve defaultOptions registryDown "order-service" initialState =
    (initialState,
     Thrown "No instances available for service: order-service",
     [GET_services "order-service"]).
Proof.
  assert (H : nothingFetched registryDown) by (intros fresh H; discriminate).
  split; [split; [reflexivity|exact H]|].
  apply (proj2 (proj2 clearing_the_cache_discards_the_fallback defaultOptions
                  registryDown "order-service" initialState eq_refl) H).
Defined.

End ClientLifecycleExtras.
